(** * propmap: the combined-score core

    A shallow embedding of the computational core of the map viewer:
    [DeprivationLayer._centroid] and, from [CombinedScoreLayer],
    [_lerp], [_scoreColor], [_haversine], [_nearestStation] and the
    per-LSOA scoring closure of [_buildLayer]; and of what surrounds it:
    the readings, bands and marker colours of [AirQualityLayer], the decile
    colours and the data kept by [DeprivationLayer.init], the three
    [_escape] functions, the [Legend] panels, the [FloodRiskLayer]
    overlays on the page and the wiring of the toggles.

    JavaScript numbers are modelled as real numbers ([R]): arithmetic is
    exact, [Infinity] is a separate constructor where the code uses it, and
    [NaN] has no counterpart.  A thrown [TypeError] is an explicit outcome
    of the functions that can throw. *)

From Stdlib Require Import Reals Lra Lia ZArith List Ascii String Bool DecimalString.
Import ListNotations.

#[local] Open Scope R_scope.

(** ** Outcomes of a call *)

Inductive result (A : Type) : Type :=
| Ok (a : A)
| TypeError.

Arguments Ok {A} a.
Arguments TypeError {A}.

(** A throw ends the call: what follows it is not run. *)
Definition bind {A B : Type} (m : result A) (k : A -> result B) : result B :=
  match m with
  | Ok a => k a
  | TypeError => TypeError
  end.

Notation "x <- m ;; k" := (bind m (fun x => k))
  (at level 61, m at next level, right associativity).

(** ** The [Math] functions the code calls *)

Module Math.

Definition max (a b : R) : R := Rmax a b.
Definition min (a b : R) : R := Rmin a b.

(** [Math.round]: the nearest integer, halves going up. *)
Definition round (x : R) : Z := Zfloor (x + / 2).

Definition sqrt (x : R) : R := R_sqrt.sqrt x.

(** [Math.atan2 y x]: the angle of the point [(x, y)], in (-PI, PI]. *)
Definition atan2 (y x : R) : R :=
  if Rlt_dec 0 x then atan (y / x)
  else if Rlt_dec x 0 then
    if Rle_dec 0 y then atan (y / x) + PI else atan (y / x) - PI
  else if Rlt_dec 0 y then PI / 2
  else if Rlt_dec y 0 then - (PI / 2)
  else 0.

End Math.

(** ** What the code uses of the language itself *)

Module Js.

Definition ltb (x y : R) : bool := if Rlt_dec x y then true else false.
Definition leb (x y : R) : bool := if Rle_dec x y then true else false.

(** [xs[i]] for a number [i]: the element at a whole index inside the
    array, [undefined] at every other number. *)
Definition at_index {A : Type} (xs : list A) (i : R) : option A :=
  if Req_dec_T (IZR (Zfloor i)) i then
    if (0 <=? Zfloor i)%Z then nth_error xs (Z.to_nat (Zfloor i)) else None
  else None.

(** [s.replace(/c/g, by)] for a pattern of one character. *)
Fixpoint replaceAll (c : ascii) (by_ : string) (s : string) : string :=
  match s with
  | EmptyString => EmptyString
  | String x rest =>
      if Ascii.eqb x c then (by_ ++ replaceAll c by_ rest)%string
      else String x (replaceAll c by_ rest)
  end.

(** A string is truthy unless it is empty; [undefined] is falsy. *)
Definition truthy (v : option string) : bool :=
  match v with
  | Some s => negb (String.eqb s EmptyString)
  | None => false
  end.

(** The names every object literal inherits from [Object.prototype]; each
    of them reads as a truthy value. *)
Definition objectPrototype : list string :=
  [ "constructor"; "hasOwnProperty"; "isPrototypeOf"; "propertyIsEnumerable";
    "toLocaleString"; "toString"; "valueOf"; "__proto__";
    "__defineGetter__"; "__defineSetter__";
    "__lookupGetter__"; "__lookupSetter__" ]%string.

End Js.

(** ** DeprivationLayer *)

Module DeprivationLayer.

(** A position is a [[lng, lat]] pair, a ring an array of positions. *)
Definition position : Type := R * R.
Definition ring : Type := list position.

(** A GeoJSON geometry: its [type] tag with its [coordinates].  A polygon
    is an array of rings, the outer one first; a multi-polygon an array of
    polygons.  Every other tag is kept as [OtherGeometry]. *)
Inductive geometry : Type :=
| Polygon (coords : list ring)
| MultiPolygon (coords : list (list ring))
| OtherGeometry (type : string).

(** The three accumulators of [_centroid]. *)
Record acc : Type := mkAcc { sumLat : R; sumLng : R; count : nat }.

Definition acc0 : acc := mkAcc 0 0 0.

(** [processRing ring]: one pass over the ring, adding each vertex. *)
Fixpoint processRing (rg : ring) (a : acc) : acc :=
  match rg with
  | [] => a
  | (lng, lat) :: rest =>
      processRing rest (mkAcc (sumLat a + lat) (sumLng a + lng) (S (count a)))
  end.

(** [processRing(x[0])]: iterating [undefined] throws. *)
Definition processFirst (rings : list ring) (a : acc) : result acc :=
  match rings with
  | [] => TypeError
  | outer :: _ => Ok (processRing outer a)
  end.

(** [for (const poly of coords) processRing(poly[0])] *)
Fixpoint processPolys (polys : list (list ring)) (a : acc) : result acc :=
  match polys with
  | [] => Ok a
  | poly :: rest => a' <- processFirst poly a ;; processPolys rest a'
  end.

(** [_centroid(geometry)]: [[lat, lng]] or [null]. *)
Definition _centroid (g : geometry) : result (option (R * R)) :=
  a <- match g with
       | Polygon coords => processFirst coords acc0
       | MultiPolygon coords => processPolys coords acc0
       | OtherGeometry _ => Ok acc0
       end ;;
  match count a with
  | O => Ok None
  | S _ => Ok (Some (sumLat a / INR (count a), sumLng a / INR (count a)))
  end.

(** ColorBrewer RdYlGn-10, decile 1 first. *)
Definition DECILE_COLORS : list string :=
  [ "#a50026"; "#d73027"; "#f46d43"; "#fdae61"; "#fee08b";
    "#d9ef8b"; "#a6d96a"; "#66bd63"; "#1a9850"; "#006837" ]%string.

(** [_decileColor(decile)]; the result is [undefined] when the array has
    nothing at [decile - 1]. *)
Definition _decileColor (decile : option R) : option string :=
  match decile with
  | None => Some "#ccc"%string
  | Some d =>
      if Js.ltb d 1 || Js.ltb 10 d then Some "#ccc"%string
      else Js.at_index DECILE_COLORS (d - 1)
  end.

(** [_escape(str)]: [String(str || '')] and three replacements in turn. *)
Definition _escape (str : option string) : string :=
  let s := match str with
           | Some s => if Js.truthy str then s else EmptyString
           | None => EmptyString
           end in
  Js.replaceAll ">"%char "&gt;"
    (Js.replaceAll "<"%char "&lt;" (Js.replaceAll "&"%char "&amp;" s)).

End DeprivationLayer.

(** ** AirQualityLayer *)

Module AirQualityLayer.

(** AQI bands of the ERG 1-10 scale. *)
Record band : Type :=
  mkBand { max : R; label : string; color : string; cssClass : string }.

Definition BANDS : list band :=
  [ mkBand 3 "Low" "#3cb371" "aqi-low";
    mkBand 6 "Moderate" "#f0a500" "aqi-moderate";
    mkBand 9 "High" "#e67e22" "aqi-high";
    mkBand 10 "Very High" "#c0392b" "aqi-very-high" ]%string.

Definition NO_DATA_COLOR : string := "#aaa".

(** [_bandForAQI(aqi)]; [None] as argument stands for [null], [undefined]
    and [NaN], as result for [null]. *)
Definition _bandForAQI (aqi : option R) : option band :=
  match aqi with
  | None => None
  | Some a =>
      match List.find (fun b => Js.leb a (max b)) BANDS with
      | Some b => Some b
      | None => nth_error BANDS (List.length BANDS - 1)
      end
  end.

Definition _markerColor (maxAQI : option R) : string :=
  match _bandForAQI maxAQI with
  | Some band => color band
  | None => NO_DATA_COLOR
  end.

(** A pollutant of a site as [_parseAQI] builds it; the index is a number,
    or [None] for [null] and [NaN]. *)
Record pollutant : Type :=
  mkPollutant { SpeciesCode : string;
                SpeciesName : string;
                AirQualityIndex : option R }.

(** [parseFloat] of a number is that number, of [null] it is [NaN]. *)
Definition parseFloat (v : option R) : option R := v.

(** The loop of [_maxAQI], [best] being the variable [max]. *)
Fixpoint maxLoop (pollutants : list pollutant) (best : option R) : option R :=
  match pollutants with
  | [] => best
  | p :: rest =>
      match parseFloat (AirQualityIndex p), best with
      | Some v, None => maxLoop rest (Some v)
      | Some v, Some m =>
          if Js.ltb m v then maxLoop rest (Some v) else maxLoop rest best
      | None, _ => maxLoop rest best
      end
  end.

Definition _maxAQI (pollutants : list pollutant) : option R :=
  maxLoop pollutants None.

(** [_escape(str)]: [String(str)] and four replacements in turn. *)
Definition _escape (str : string) : string :=
  Js.replaceAll "034"%char "&quot;"
    (Js.replaceAll ">"%char "&gt;"
       (Js.replaceAll "<"%char "&lt;" (Js.replaceAll "&"%char "&amp;" str))).

End AirQualityLayer.

(** ** CombinedScoreLayer *)

Module CombinedScoreLayer.

(** *** Colour interpolation *)

(** A gradient stop [{ t, r, g, b }]; the channels are integers. *)
Record stop : Type := mkStop { t : R; r : Z; g : Z; b : Z }.

Definition COLOR_STOPS : list stop :=
  [ mkStop 0 44 160 44;
    mkStop 0.25 143 188 50;
    mkStop 0.5 240 165 0;
    mkStop 0.75 220 90 30;
    mkStop 1 180 30 30 ].

Record rgb : Type := mkRgb { red : Z; green : Z; blue : Z }.

Definition Rleb (x y : R) : bool := if Rle_dec x y then true else false.

Definition _lerp (a c : Z) (u : R) : Z :=
  Math.round (IZR a + (IZR c - IZR a) * u).

(** The [for] loop of [_scoreColor]: the first adjacent pair of stops
    that has [s] between its positions ([break] at the first hit). *)
Fixpoint bracket (s : R) (stops : list stop) : option (stop * stop) :=
  match stops with
  | lo :: ((hi :: _) as rest) =>
      if Rleb (t lo) s && Rleb s (t hi) then Some (lo, hi)
      else bracket s rest
  | _ => None
  end.

(** [hi.t - lo.t || 1] *)
Definition span (lo hi : stop) : R :=
  if Req_dec_T (t hi - t lo) 0 then 1 else t hi - t lo.

(** The body of [_scoreColor] over a table of stops, up to the three
    channels. Reading [.t] of [undefined] (an empty table) throws. *)
Definition scoreChannels (stops : list stop) (score : R) : result rgb :=
  let s := Math.max 0 (Math.min 1 score) in
  let ends :=
    match bracket s stops with
    | Some (lo, hi) => (Some lo, Some hi)
    | None => (nth_error stops 0, nth_error stops (List.length stops - 1))
    end in
  match ends with
  | (Some lo, Some hi) =>
      let u := (s - t lo) / span lo hi in
      Ok (mkRgb (_lerp (r lo) (r hi) u)
                (_lerp (g lo) (g hi) u)
                (_lerp (b lo) (b hi) u))
  | _ => TypeError
  end.

Definition decimal (z : Z) : string :=
  DecimalString.NilZero.string_of_int (Z.to_int z).

(** [`rgb(${r},${g},${b})`] *)
Definition render (c : rgb) : string :=
  ("rgb(" ++ decimal (red c) ++ "," ++ decimal (green c) ++ ","
          ++ decimal (blue c) ++ ")")%string.

Definition _scoreColor (score : R) : result string :=
  c <- scoreChannels COLOR_STOPS score ;; Ok (render c).

(** *** Haversine nearest station *)

Definition _haversine (lat1 lng1 lat2 lng2 : R) : R :=
  let radius := 6371 in
  let dLat := (lat2 - lat1) * PI / 180 in
  let dLng := (lng2 - lng1) * PI / 180 in
  let a := sin (dLat / 2) ^ 2 +
           cos (lat1 * PI / 180) * cos (lat2 * PI / 180) *
           sin (dLng / 2) ^ 2 in
  radius * 2 * Math.atan2 (Math.sqrt a) (Math.sqrt (1 - a)).

(** An entry of [AirQualityLayer._stations]: [{ lat, lng, maxAQI, name }],
    [maxAQI] being [null] when the site has no reading. *)
Record station : Type :=
  mkStation { lat : R; lng : R; maxAQI : option R; name : string }.

(** [Object.entries(stations)], in iteration order. *)
Definition stations : Type := list (string * station).

(** The running minimum starts at [Infinity]. *)
Inductive distance : Type :=
| Infinity
| Finite (d : R).

Definition below (d : R) (bestDist : distance) : bool :=
  match bestDist with
  | Infinity => true
  | Finite d' => if Rlt_dec d d' then true else false
  end.

Fixpoint nearestLoop (plat plng : R) (entries : stations)
         (best : option station) (bestDist : distance) : option station :=
  match entries with
  | [] => best
  | (_, st) :: rest =>
      let d := _haversine plat plng (lat st) (lng st) in
      if below d bestDist then nearestLoop plat plng rest (Some st) (Finite d)
      else nearestLoop plat plng rest best bestDist
  end.

Definition _nearestStation (plat plng : R) (sts : stations) : option station :=
  nearestLoop plat plng sts None Infinity.

(** *** The per-LSOA score of [_buildLayer] *)

(** An entry of [DeprivationLayer._data]; [centroid] is [[lat, lng]]. *)
Record lsoa : Type :=
  mkLsoa { lsoa_code : string;
           lsoa_name : string;
           borough : string;
           imd_decile : option R;
           centroid : option (R * R) }.

Record feature : Type :=
  mkFeature { region : lsoa;
              score : R;
              depComp : R;
              aqComp : R;
              noiseComp : R;
              nearestSt : option station }.

(** The closure mapped over [lsoaData]. *)
Definition computeScore (sts : stations) (l : lsoa) : feature :=
  let hasStations := Nat.ltb 0 (List.length sts) in
  let depComp :=
    match imd_decile l with
    | Some decile => (11 - decile) / 10
    | None => 0.5
    end in
  let nearestSt :=
    match hasStations, centroid l with
    | true, Some (plat, plng) => _nearestStation plat plng sts
    | _, _ => None
    end in
  let aqComp :=
    match nearestSt with
    | Some st =>
        match maxAQI st with
        | Some m => Math.min (m / 10) 1
        | None => 0.5
        end
    | None => 0.5
    end in
  let noiseComp := 0.5 in
  let score := 0.4 * depComp + 0.4 * aqComp + 0.2 * noiseComp in
  mkFeature l score depComp aqComp noiseComp nearestSt.

Definition features (sts : stations) (lsoaData : list lsoa) : list feature :=
  map (computeScore sts) lsoaData.

(** [_escape(str)], the same text as in [DeprivationLayer]. *)
Definition _escape (str : option string) : string :=
  let s := match str with
           | Some s => if Js.truthy str then s else EmptyString
           | None => EmptyString
           end in
  Js.replaceAll ">"%char "&gt;"
    (Js.replaceAll "<"%char "&lt;" (Js.replaceAll "&"%char "&amp;" s)).

End CombinedScoreLayer.

(** ** The data [DeprivationLayer.init] keeps for the combined score *)

Module DeprivationInit.

(** A feature of the bundled GeoJSON: its properties and its geometry,
    which may be [null]. *)
Record geoFeature : Type :=
  mkGeoFeature { lsoa_code : string;
                 lsoa_name : string;
                 borough : string;
                 imd_decile : option R;
                 imd_score : option R;
                 geometry : option DeprivationLayer.geometry }.

(** An entry of [_data]: what the score reads, with the two fields it does
    not read. *)
Record datum : Type :=
  mkDatum { entry : CombinedScoreLayer.lsoa;
            score_ : option R;
            shape : option DeprivationLayer.geometry }.

(** [_centroid(f.geometry)]: reading [coordinates] of [null] throws. *)
Definition centroidOf (g : option DeprivationLayer.geometry)
  : result (option (R * R)) :=
  match g with
  | Some g => DeprivationLayer._centroid g
  | None => TypeError
  end.

(** [.filter(f => f.properties.imd_decile != null)] *)
Definition hasDecile (f : geoFeature) : bool :=
  match imd_decile f with
  | Some _ => true
  | None => false
  end.

(** [.map(f => ({ ..., centroid: _centroid(f.geometry), ... }))], from the
    first feature on; a throw ends it. *)
Fixpoint toData (fs : list geoFeature) : result (list datum) :=
  match fs with
  | [] => Ok []
  | f :: rest =>
      c <- centroidOf (geometry f) ;;
      ds <- toData rest ;;
      Ok (mkDatum (CombinedScoreLayer.mkLsoa (lsoa_code f) (lsoa_name f)
                     (borough f) (imd_decile f) c)
                  (imd_score f) (geometry f) :: ds)
  end.

(** [_data] after [init]: the [catch] leaves it as it was, empty. *)
Definition _data (fs : list geoFeature) : list datum :=
  match toData (filter hasDecile fs) with
  | Ok ds => ds
  | TypeError => []
  end.

End DeprivationInit.

(** ** Legend *)

Module Legend.

#[local] Set Warnings "-register-all".

(** An element of the page as the legend builds it. *)
Inductive node : Type :=
| Element (tagName className id : string)
          (attributes : list (string * string))
          (textContent : string)
          (children : list node).

Definition idOf (n : node) : string :=
  match n with
  | Element _ _ i _ _ _ => i
  end.

Record item : Type := mkItem { color : string; label : string; circle : bool }.

Record config : Type :=
  mkConfig { title : option string;
             subtitle : option string;
             items : option (list item);
             wmsLegendUrl : option string;
             note : option string }.

Definition _panelId (key : string) : string := ("legend-panel-" ++ key)%string.

(** [document.getElementById(id)] and [existing.remove()]: the first
    element with the id leaves the container. Inside a panel no element
    has an id. *)
Fixpoint removeFirst (id : string) (container : list node) : list node :=
  match container with
  | [] => []
  | n :: rest =>
      if String.eqb (idOf n) id then rest else n :: removeFirst id rest
  end.

Definition remove (key : string) (container : list node) : list node :=
  removeFirst (_panelId key) container.

(** The element of an optional text, when the text is truthy. *)
Definition whenTruthy (v : option string) (mk : string -> node) : list node :=
  match v with
  | Some s => if Js.truthy v then [mk s] else []
  | None => []
  end.

Definition row (it : item) : node :=
  Element "div" "legend-item" EmptyString [] EmptyString
    [ Element "span"
        ("legend-swatch" ++ (if circle it then " circle" else EmptyString))
        EmptyString [("style.background", color it)] EmptyString [];
      Element "span" EmptyString EmptyString [] (label it) [] ]%string.

Definition panel (key : string) (cfg : config) : node :=
  Element "div" "legend-panel" (_panelId key) [] EmptyString
    (whenTruthy (title cfg)
       (fun s => Element "h3" EmptyString EmptyString [] s [])
     ++ whenTruthy (subtitle cfg)
          (fun s => Element "p" "legend-subtitle" EmptyString [] s [])
     ++ match items cfg with
        | Some (it :: its) =>
            [Element "div" "legend-items" EmptyString [] EmptyString
               (map row (it :: its))]
        | _ => []
        end
     ++ whenTruthy (wmsLegendUrl cfg)
          (fun u => Element "img" "legend-img" EmptyString
                      [("src", u); ("alt", "Legend")] EmptyString [])
     ++ whenTruthy (note cfg)
          (fun s => Element "p" "legend-note" EmptyString [] s []))%list%string.

(** [render(key, config)]: the old panel of the key goes, the new one is
    appended. The [onerror] handler of the image, which only hides a broken
    image later, is not part of the element here. *)
Definition render (key : string) (cfg : config) (container : list node)
  : list node :=
  (remove key container ++ [panel key cfg])%list.

End Legend.

(** ** The map and the page *)

Module L.

Record wmsOptions : Type :=
  mkOptions { layers : string;
              format : string;
              transparent : bool;
              opacity : R;
              version : string;
              attribution : string }.

(** A layer object; Leaflet tells layers apart by their stamp, and a map
    holds each layer once: [addLayer] returns at once for a layer the map
    has, [removeLayer] for one it has not. *)
Record layer : Type :=
  mkLayer { stamp : nat; url : string; options : wmsOptions }.

(** What the layer modules change: the layers on the map, the panels of
    the legend container and the next stamp. *)
Record page : Type :=
  mkPage { onMap : list layer; legend : list Legend.node; nextStamp : nat }.

(** [L.tileLayer.wms(url, options)] *)
Definition wms (u : string) (o : wmsOptions) (pg : page) : layer * page :=
  (mkLayer (nextStamp pg) u o,
   mkPage (onMap pg) (legend pg) (S (nextStamp pg))).

Definition hasLayer (l : layer) (pg : page) : bool :=
  existsb (fun x => Nat.eqb (stamp x) (stamp l)) (onMap pg).

(** [layer.addTo(map)]: nothing happens for a layer the map has. *)
Definition addTo (l : layer) (pg : page) : page :=
  if hasLayer l pg then pg
  else mkPage (onMap pg ++ [l]) (legend pg) (nextStamp pg).

Definition removeLayer (l : layer) (pg : page) : page :=
  mkPage (filter (fun x => negb (Nat.eqb (stamp x) (stamp l))) (onMap pg))
         (legend pg) (nextStamp pg).

Definition legendRender (key : string) (cfg : Legend.config) (pg : page)
  : page :=
  mkPage (onMap pg) (Legend.render key cfg (legend pg)) (nextStamp pg).

Definition legendRemove (key : string) (pg : page) : page :=
  mkPage (onMap pg) (Legend.remove key (legend pg)) (nextStamp pg).

End L.

(** ** FloodRiskLayer *)

Module FloodRiskLayer.

Definition RS_WMS_URL : string :=
  "https://environment.data.gov.uk/geoservices/datasets/04532375-a198-476e-985e-0579a0a11b47/wms".

Definition SW_WMS_URL : string :=
  "https://environment.data.gov.uk/geoservices/datasets/b5aaa28d-6eb9-460e-8d6f-43caa71fbe0e/wms".

Definition RS_LAYER : string := "Flood_Zones_2_3_Rivers_and_Sea".
Definition SW_LAYER : string := "rofsw".

(** [{ ...WMS_OPTS, layers }] *)
Definition ATTRIBUTION : string :=
  let q := String "034"%char EmptyString in
  ("© <a href=" ++ q
   ++ "https://www.gov.uk/government/organisations/environment-agency"
   ++ q ++ " target=" ++ q ++ "_blank" ++ q
   ++ ">Environment Agency</a> flood risk data, OGL v3")%string.

Definition WMS_OPTS (layers : string) : L.wmsOptions :=
  L.mkOptions layers "image/png" true 0.65 "1.3.0" ATTRIBUTION.

Definition LEGEND_RS : Legend.config :=
  Legend.mkConfig
    (Some "Flood Risk — Rivers & Sea"%string)
    (Some "EA Flood Map for Planning (FZ2 & FZ3)"%string)
    (Some [ Legend.mkItem "#394386"%string
              "Flood Zone 3 — High (>1% annual)"%string false;
            Legend.mkItem "#9bcffb"%string
              "Flood Zone 2 — Medium (0.1–1% annual)"%string false ])
    None
    (Some "Only visible at zoom 12+."%string).

Definition LEGEND_SW : Legend.config :=
  Legend.mkConfig
    (Some "Flood Risk — Surface Water"%string)
    (Some "EA Risk of Flooding from Surface Water"%string)
    (Some [ Legend.mkItem "#555b9d"%string "High risk"%string false;
            Legend.mkItem "#9a9fde"%string "Medium risk"%string false;
            Legend.mkItem "#c3e0ff"%string "Low risk"%string false;
            Legend.mkItem "#b0b3b4"%string "Very low risk"%string false ])
    None
    (Some "Only visible at zoom 12+."%string).

(** The variables of the module; [_map] is [true] once the map is set. *)
Record state : Type :=
  mkState { _map : bool;
            _rsLayer : option L.layer;
            _swLayer : option L.layer;
            _visible : bool;
            _mode : string }.

Definition start : state := mkState false None None false "rs".

Definition _makeRS (pg : L.page) : L.layer * L.page :=
  L.wms RS_WMS_URL (WMS_OPTS RS_LAYER) pg.

Definition _makeSW (pg : L.page) : L.layer * L.page :=
  L.wms SW_WMS_URL (WMS_OPTS SW_LAYER) pg.

(** [if (layer && _map.hasLayer(layer)) _map.removeLayer(layer)] *)
Definition removeIfOn (l : option L.layer) (pg : L.page) : L.page :=
  match l with
  | Some x => if L.hasLayer x pg then L.removeLayer x pg else pg
  | None => pg
  end.

Definition isMode (m : string) (st : state) : bool := String.eqb (_mode st) m.

Definition _applyMode (st : state) (pg : L.page) : state * L.page :=
  let pg := removeIfOn (_rsLayer st) pg in
  let pg := removeIfOn (_swLayer st) pg in
  let pg := L.legendRemove "flood-rs" pg in
  let pg := L.legendRemove "flood-sw" pg in
  let '(st, pg) :=
    if isMode "rs" st || isMode "both" st then
      let '(l, pg) := _makeRS pg in
      (mkState (_map st) (Some l) (_swLayer st) (_visible st) (_mode st),
       L.legendRender "flood-rs" LEGEND_RS (L.addTo l pg))
    else (st, pg) in
  if isMode "sw" st || isMode "both" st then
    let '(l, pg) := _makeSW pg in
    (mkState (_map st) (_rsLayer st) (Some l) (_visible st) (_mode st),
     L.legendRender "flood-sw" LEGEND_SW (L.addTo l pg))
  else (st, pg).

Definition init (st : state) (pg : L.page) : state * L.page :=
  let '(l, pg) := _makeRS pg in
  (mkState true (Some l) (_swLayer st) true (_mode st),
   L.legendRender "flood-rs" LEGEND_RS (L.addTo l pg)).

Definition show (st : state) (pg : L.page) : state * L.page :=
  if negb (_map st) || _visible st then (st, pg)
  else _applyMode
         (mkState (_map st) (_rsLayer st) (_swLayer st) true (_mode st)) pg.

Definition hide (st : state) (pg : L.page) : state * L.page :=
  if negb (_map st) || negb (_visible st) then (st, pg)
  else
    let pg := removeIfOn (_rsLayer st) pg in
    let pg := removeIfOn (_swLayer st) pg in
    (mkState (_map st) (_rsLayer st) (_swLayer st) false (_mode st),
     L.legendRemove "flood-sw" (L.legendRemove "flood-rs" pg)).

(** [['rs', 'sw', 'both'].includes(mode)] *)
Definition knownMode (mode : string) : bool :=
  existsb (String.eqb mode) ["rs"; "sw"; "both"]%string.

Definition setMode (mode : string) (st : state) (pg : L.page)
  : state * L.page :=
  if negb (knownMode mode) then (st, pg)
  else
    let st := mkState (_map st) (_rsLayer st) (_swLayer st) (_visible st) mode in
    if _visible st then _applyMode st pg else (st, pg).

(** A call from the page. *)
Inductive call : Type :=
| Show
| Hide
| SetMode (mode : string).

Definition step (c : call) (sp : state * L.page) : state * L.page :=
  match c with
  | Show => show (fst sp) (snd sp)
  | Hide => hide (fst sp) (snd sp)
  | SetMode m => setMode m (fst sp) (snd sp)
  end.

(** [init] and then the calls, in order. *)
Definition run (calls : list call) (pg : L.page) : state * L.page :=
  fold_left (fun sp c => step c sp) calls (init start pg).

End FloodRiskLayer.

(** ** The toggles of the page *)

Module App.

Inductive layerModule : Type :=
| AirQuality
| Noise
| RoadNoise
| FloodRisk
| Deprivation
| CombinedScore.

(** What a handler asks of the layer modules, in the order it asks. *)
Inductive request : Type :=
| show (m : layerModule)
| hide (m : layerModule)
| setMetric (value : string)
| setMode (value : string).

(** [_stateBeforeCombined] *)
Record saved : Type :=
  mkSaved { air : bool; noise : bool; roadNoise : bool; flood : bool;
            dep : bool }.

(** The [checked] of the six checkboxes, whether the two sub-selectors
    have the class [hidden], and the variable of the wiring. *)
Record state : Type :=
  mkApp { toggleAir : bool;
          toggleNoise : bool;
          toggleRoadNoise : bool;
          toggleFlood : bool;
          toggleDeprivation : bool;
          toggleCombined : bool;
          roadNoiseSubHidden : bool;
          floodSubHidden : bool;
          _stateBeforeCombined : option saved }.

Definition showOrHide (on : bool) (m : layerModule) : request :=
  if on then show m else hide m.

Definition _setIndividualLayersVisible (airOn noiseOn roadNoiseOn floodOn
                                         depOn : bool) : list request :=
  [ showOrHide airOn AirQuality; showOrHide noiseOn Noise;
    showOrHide roadNoiseOn RoadNoise; showOrHide floodOn FloodRisk;
    showOrHide depOn Deprivation ].

(** The [change] listeners, run after the box has changed. *)
Definition onAir (st : state) : state * list request :=
  if toggleCombined st then (st, [])
  else (st, [showOrHide (toggleAir st) AirQuality]).

Definition onNoise (st : state) : state * list request :=
  if toggleCombined st then (st, [])
  else (st, [showOrHide (toggleNoise st) Noise]).

Definition onRoadNoise (st : state) : state * list request :=
  if toggleCombined st then (st, [])
  else
    (mkApp (toggleAir st) (toggleNoise st) (toggleRoadNoise st)
           (toggleFlood st) (toggleDeprivation st) (toggleCombined st)
           (negb (toggleRoadNoise st)) (floodSubHidden st)
           (_stateBeforeCombined st),
     [showOrHide (toggleRoadNoise st) RoadNoise]).

Definition onFlood (st : state) : state * list request :=
  if toggleCombined st then (st, [])
  else
    (mkApp (toggleAir st) (toggleNoise st) (toggleRoadNoise st)
           (toggleFlood st) (toggleDeprivation st) (toggleCombined st)
           (roadNoiseSubHidden st) (negb (toggleFlood st))
           (_stateBeforeCombined st),
     [showOrHide (toggleFlood st) FloodRisk]).

Definition onDeprivation (st : state) : state * list request :=
  if toggleCombined st then (st, [])
  else (st, [showOrHide (toggleDeprivation st) Deprivation]).

Definition onCombined (st : state) : state * list request :=
  if toggleCombined st then
    (mkApp (toggleAir st) (toggleNoise st) (toggleRoadNoise st)
           (toggleFlood st) (toggleDeprivation st) (toggleCombined st)
           (roadNoiseSubHidden st) (floodSubHidden st)
           (Some (mkSaved (toggleAir st) (toggleNoise st) (toggleRoadNoise st)
                          (toggleFlood st) (toggleDeprivation st))),
     [ hide AirQuality; hide Noise; hide RoadNoise; hide FloodRisk;
       hide Deprivation; show CombinedScore ])
  else
    match _stateBeforeCombined st with
    | Some b =>
        (mkApp (air b) (noise b) (roadNoise b) (flood b) (dep b)
               (toggleCombined st)
               (negb (roadNoise b)) (negb (flood b)) None,
         hide CombinedScore
         :: _setIndividualLayersVisible (air b) (noise b) (roadNoise b)
                                        (flood b) (dep b))
    | None =>
        (st,
         [ hide CombinedScore; show AirQuality; show Noise; show RoadNoise;
           show FloodRisk; show Deprivation ])
    end.

(** What the visitor does: a click on a checkbox, which changes it and
    then runs its listener, or the choice of a radio button, which runs the
    listener of the button chosen. *)
Inductive event : Type :=
| ClickAir
| ClickNoise
| ClickRoadNoise
| ClickFlood
| ClickDeprivation
| ClickCombined
| PickMetric (value : string)
| PickMode (value : string).

Definition handle (e : event) (st : state) : state * list request :=
  match e with
  | ClickAir =>
      onAir (mkApp (negb (toggleAir st)) (toggleNoise st) (toggleRoadNoise st)
                   (toggleFlood st) (toggleDeprivation st) (toggleCombined st)
                   (roadNoiseSubHidden st) (floodSubHidden st)
                   (_stateBeforeCombined st))
  | ClickNoise =>
      onNoise (mkApp (toggleAir st) (negb (toggleNoise st))
                     (toggleRoadNoise st) (toggleFlood st)
                     (toggleDeprivation st) (toggleCombined st)
                     (roadNoiseSubHidden st) (floodSubHidden st)
                     (_stateBeforeCombined st))
  | ClickRoadNoise =>
      onRoadNoise (mkApp (toggleAir st) (toggleNoise st)
                         (negb (toggleRoadNoise st)) (toggleFlood st)
                         (toggleDeprivation st) (toggleCombined st)
                         (roadNoiseSubHidden st) (floodSubHidden st)
                         (_stateBeforeCombined st))
  | ClickFlood =>
      onFlood (mkApp (toggleAir st) (toggleNoise st) (toggleRoadNoise st)
                     (negb (toggleFlood st)) (toggleDeprivation st)
                     (toggleCombined st)
                     (roadNoiseSubHidden st) (floodSubHidden st)
                     (_stateBeforeCombined st))
  | ClickDeprivation =>
      onDeprivation (mkApp (toggleAir st) (toggleNoise st)
                           (toggleRoadNoise st) (toggleFlood st)
                           (negb (toggleDeprivation st)) (toggleCombined st)
                           (roadNoiseSubHidden st) (floodSubHidden st)
                           (_stateBeforeCombined st))
  | ClickCombined =>
      onCombined (mkApp (toggleAir st) (toggleNoise st) (toggleRoadNoise st)
                        (toggleFlood st) (toggleDeprivation st)
                        (negb (toggleCombined st))
                        (roadNoiseSubHidden st) (floodSubHidden st)
                        (_stateBeforeCombined st))
  | PickMetric value => (st, [setMetric value])
  | PickMode value => (st, [setMode value])
  end.

(** The events in order, with all the requests made. *)
Fixpoint play (events : list event) (st : state) : state * list request :=
  match events with
  | [] => (st, [])
  | e :: rest =>
      let '(st1, asked) := handle e st in
      let '(st2, more) := play rest st1 in
      (st2, asked ++ more)
  end.

End App.

(** ** The properties, in the words of the specification *)

Import DeprivationLayer CombinedScoreLayer.

Definition sumR (xs : list R) : R := fold_right Rplus 0 xs.

(** The outer ring of a polygon is its first ring; the others are holes. *)
Definition outerRing (poly : list ring) : ring := hd [] poly.

(** The vertices that count: those of the outer ring of every polygon. *)
Definition outerVertices (g : geometry) : list position :=
  match g with
  | Polygon coords => outerRing coords
  | MultiPolygon coords => List.concat (map outerRing coords)
  | OtherGeometry _ => []
  end.

(** Every polygon of the geometry has its outer ring. *)
Definition hasOuterRings (g : geometry) : Prop :=
  match g with
  | Polygon coords => coords <> []
  | MultiPolygon coords => Forall (fun poly => poly <> []) coords
  | OtherGeometry _ => True
  end.

(** The arithmetic mean of a list of [[lng, lat]] vertices as [[lat, lng]],
    [null] for no vertex. *)
Definition vertexMean (vs : list position) : option (R * R) :=
  match vs with
  | [] => None
  | _ :: _ => Some (sumR (map snd vs) / INR (List.length vs),
                    sumR (map fst vs) / INR (List.length vs))
  end.

Definition square : geometry :=
  Polygon [[(0, 0); (0, 2); (2, 2); (2, 0)]].

(** Two polygons, the first with a hole. *)
Definition twoIslands : geometry :=
  MultiPolygon [ [ [(0, 0); (4, 0); (4, 4); (0, 4)];
                   [(1, 1); (2, 1); (2, 2)] ];
                 [ [(10, 10); (12, 10)] ] ].

(** The distance [_nearestStation] measures to a station. *)
Definition distanceTo (plat plng : R) (st : station) : R :=
  _haversine plat plng (lat st) (lng st).


(** The clamp to [0,1] the specification asks for before weighting. *)
Definition clamp01 (x : R) : R := Rmax 0 (Rmin 1 x).

Definition clampedScore (f : feature) : R :=
  0.4 * clamp01 (depComp f) + 0.4 * clamp01 (aqComp f)
  + 0.2 * clamp01 (noiseComp f).

(** The score as specified: the weighted sum of the clamped components,
    within [0,1]. *)
Definition scoreAsSpecified (sts : stations) (l : lsoa) : Prop :=
  let f := computeScore sts l in
  score f = clampedScore f /\ 0 <= score f <= 1.

(** Sample data: an LSOA by the river and two monitoring sites at one spot. *)
Definition putney (decile : option R) : lsoa :=
  mkLsoa "E01004550" "Wandsworth 001A" "Wandsworth" decile
         (Some (51.46, -0.22)).

Definition siteA (aqi : option R) : station :=
  mkStation 51.46 (-0.22) aqi "Putney High Street".

Definition siteB : station :=
  mkStation 51.46 (-0.22) (Some 2) "Putney".

(** Stops sorted ascending by position. *)
Definition sortedAscending (stops : list stop) : Prop :=
  forall i lo hi,
    nth_error stops i = Some lo -> nth_error stops (S i) = Some hi ->
    t lo <= t hi.

(** A valid gradient: at least two stops, sorted ascending, the first at
    position 0 and the last at position 1. *)
Definition validStops (stops : list stop) : Prop :=
  (2 <= List.length stops)%nat /\
  sortedAscending stops /\
  option_map t (nth_error stops 0) = Some 0 /\
  option_map t (nth_error stops (List.length stops - 1)) = Some 1.

(** The stop lists the specification wants rejected. *)
Definition malformedStops (stops : list stop) : Prop :=
  (List.length stops < 2)%nat \/ ~ sortedAscending stops.

Definition between (z a c : Z) : Prop := (Z.min a c <= z <= Z.max a c)%Z.

Definition inByte (z : Z) : Prop := (0 <= z <= 255)%Z.

Definition channelsInByte (stops : list stop) : Prop :=
  Forall (fun s => inByte (r s) /\ inByte (g s) /\ inByte (b s)) stops.

(** Linear interpolation between two stops at position [s], rounded. *)
Definition interpolated (lo hi : stop) (s : R) (c : rgb) : Prop :=
  let u := (s - t lo) / span lo hi in
  red c = Math.round (IZR (r lo) + (IZR (r hi) - IZR (r lo)) * u) /\
  green c = Math.round (IZR (g lo) + (IZR (g hi) - IZR (g lo)) * u) /\
  blue c = Math.round (IZR (b lo) + (IZR (b hi) - IZR (b lo)) * u).

Definition oneStop : list stop := [mkStop 0 44 160 44].

Definition unsortedStops : list stop :=
  [mkStop 1 180 30 30; mkStop 0 44 160 44].

(** A valid table whose first two stops share position 0. *)
Definition flatStops : list stop :=
  [mkStop 0 0 0 0; mkStop 0 100 100 100; mkStop 1 255 255 255].

(** *** Markup and readings *)

(** A character occurs in a string. *)
Definition occurs (c : ascii) (s : string) : Prop :=
  In c (list_ascii_of_string s).

(** The entity of a character, or the character itself. *)
Definition entity (quoted : bool) (c : ascii) : string :=
  if Ascii.eqb c "&" then "&amp;"
  else if Ascii.eqb c "<" then "&lt;"
  else if Ascii.eqb c ">" then "&gt;"
  else if quoted && Ascii.eqb c "034" then "&quot;"
  else String c EmptyString.

(** Every character replaced by its entity, in one pass. *)
Fixpoint entities (quoted : bool) (s : string) : string :=
  match s with
  | EmptyString => EmptyString
  | String c rest => (entity quoted c ++ entities quoted rest)%string
  end.

Definition readings (ps : list AirQualityLayer.pollutant) : list R :=
  flat_map (fun p => match AirQualityLayer.AirQualityIndex p with
                     | Some v => [v]
                     | None => []
                     end) ps.

Definition sampleReadings : list AirQualityLayer.pollutant :=
  [ AirQualityLayer.mkPollutant "NO2" "Nitrogen Dioxide" (Some 3);
    AirQualityLayer.mkPollutant "PM10" "PM10 Particulate" None;
    AirQualityLayer.mkPollutant "O3" "Ozone" (Some 5);
    AirQualityLayer.mkPollutant "PM25" "PM2.5 Particulate" (Some 2) ]%string.

(** *** Geometry, distance and gradient *)




(** Positions strictly ascending from stop to stop. *)
Definition strictlyAscending (stops : list stop) : Prop :=
  forall i lo hi,
    nth_error stops i = Some lo -> nth_error stops (S i) = Some hi ->
    t lo < t hi.

Definition colourOf (st : stop) : rgb := mkRgb (r st) (g st) (b st).

(** *** Toggles *)

(** The five checkboxes of the single layers. *)
Definition boxes (st : App.state) : App.saved :=
  App.mkSaved (App.toggleAir st) (App.toggleNoise st) (App.toggleRoadNoise st)
              (App.toggleFlood st) (App.toggleDeprivation st).

Definition isShowOrHide (q : App.request) : bool :=
  match q with
  | App.show _ | App.hide _ => true
  | _ => false
  end.

Definition otherThanCombined (e : App.event) : Prop := e <> App.ClickCombined.

Definition samplePage : App.state :=
  App.mkApp true false true false true false false true None.

(** *** Flood overlays *)

(** The overlays and the panels the flood layer should be showing: those of
    its mode while it is visible, none while it is hidden. *)
Definition wantsRS (st : FloodRiskLayer.state) : bool :=
  FloodRiskLayer._visible st
  && (FloodRiskLayer.isMode "rs" st || FloodRiskLayer.isMode "both" st).

Definition wantsSW (st : FloodRiskLayer.state) : bool :=
  FloodRiskLayer._visible st
  && (FloodRiskLayer.isMode "sw" st || FloodRiskLayer.isMode "both" st).

Definition expectedOverlays (st : FloodRiskLayer.state)
  : list (string * L.wmsOptions) :=
  (if wantsRS st
   then [(FloodRiskLayer.RS_WMS_URL,
          FloodRiskLayer.WMS_OPTS FloodRiskLayer.RS_LAYER)] else [])
  ++ (if wantsSW st
      then [(FloodRiskLayer.SW_WMS_URL,
             FloodRiskLayer.WMS_OPTS FloodRiskLayer.SW_LAYER)] else []).

Definition expectedPanels (st : FloodRiskLayer.state) : list Legend.node :=
  (if wantsRS st
   then [Legend.panel "flood-rs" FloodRiskLayer.LEGEND_RS] else [])
  ++ (if wantsSW st
      then [Legend.panel "flood-sw" FloodRiskLayer.LEGEND_SW] else []).

(** A page the flood layer can start on: the stamps on the map are used
    ones, and the legend has no flood panel. *)
Definition floodFree (pg : L.page) : Prop :=
  Forall (fun l => (L.stamp l < L.nextStamp pg)%nat) (L.onMap pg) /\
  ~ In (Legend._panelId "flood-rs") (map Legend.idOf (L.legend pg)) /\
  ~ In (Legend._panelId "flood-sw") (map Legend.idOf (L.legend pg)).

Definition describe (l : L.layer) : string * L.wmsOptions :=
  (L.url l, L.options l).

Definition emptyPage : L.page := L.mkPage [] [] 0.

(** The mode asked for last among the known ones, and whether the last of
    [show] and [hide] was [show]. *)
Definition lastMode (calls : list FloodRiskLayer.call) (m0 : string) : string :=
  fold_left (fun m c =>
               match c with
               | FloodRiskLayer.SetMode x =>
                   if FloodRiskLayer.knownMode x then x else m
               | _ => m
               end) calls m0.

Definition lastVisible (calls : list FloodRiskLayer.call) (v0 : bool) : bool :=
  fold_left (fun v c =>
               match c with
               | FloodRiskLayer.Show => true
               | FloodRiskLayer.Hide => false
               | FloodRiskLayer.SetMode _ => v
               end) calls v0.

Definition layerList (o : option L.layer) : list L.layer :=
  match o with
  | Some l => [l]
  | None => []
  end.

(** A layer variable holds nothing or a layer made by the module since
    the page [pg0]. *)
Definition madeSince (pg0 pg : L.page) (u name : string)
           (o : option L.layer) : Prop :=
  forall l, o = Some l ->
    L.url l = u /\ L.options l = FloodRiskLayer.WMS_OPTS name /\
    (L.nextStamp pg0 <= L.stamp l < L.nextStamp pg)%nat.

(** What the module has on the page since [pg0]: after the layers and the
    panels of [pg0] come its own, the overlays as the flags [mr], [ms] say
    and the panels as [lr], [ls] say. *)
Definition showing (pg0 : L.page) (mr ms lr ls : bool)
           (st : FloodRiskLayer.state) (pg : L.page) : Prop :=
  L.onMap pg
  = L.onMap pg0
    ++ (if mr then layerList (FloodRiskLayer._rsLayer st) else [])
    ++ (if ms then layerList (FloodRiskLayer._swLayer st) else []) /\
  L.legend pg
  = L.legend pg0
    ++ (if lr then [Legend.panel "flood-rs" FloodRiskLayer.LEGEND_RS] else [])
    ++ (if ls then [Legend.panel "flood-sw" FloodRiskLayer.LEGEND_SW] else []) /\
  (L.nextStamp pg0 <= L.nextStamp pg)%nat /\
  madeSince pg0 pg FloodRiskLayer.RS_WMS_URL FloodRiskLayer.RS_LAYER
            (FloodRiskLayer._rsLayer st) /\
  madeSince pg0 pg FloodRiskLayer.SW_WMS_URL FloodRiskLayer.SW_LAYER
            (FloodRiskLayer._swLayer st) /\
  (forall x y, FloodRiskLayer._rsLayer st = Some x ->
               FloodRiskLayer._swLayer st = Some y ->
               L.stamp x <> L.stamp y) /\
  (mr = true -> FloodRiskLayer._rsLayer st <> None) /\
  (ms = true -> FloodRiskLayer._swLayer st <> None).

(** The invariant of the module after [init]. *)
Definition inSync (pg0 : L.page) (sp : FloodRiskLayer.state * L.page) : Prop :=
  FloodRiskLayer._map (fst sp) = true /\
  FloodRiskLayer.knownMode (FloodRiskLayer._mode (fst sp)) = true /\
  showing pg0 (wantsRS (fst sp)) (wantsSW (fst sp))
              (wantsRS (fst sp)) (wantsSW (fst sp)) (fst sp) (snd sp).

(** ** Centroid *)

Section Centroid.

Lemma processRing_sums (rg : ring) (a : acc) :
  processRing rg a =
  mkAcc (sumLat a + sumR (map snd rg)) (sumLng a + sumR (map fst rg))
        (count a + List.length rg).
Proof.
  revert a; induction rg as [| [x y] rest IH]; intros a; simpl.
  - destruct a as [sa so n]; simpl.
    f_equal; try lra; lia.
  - rewrite IH; simpl.
    f_equal; try lra; lia.
Qed.

Lemma processRing_app (r1 r2 : ring) (a : acc) :
  processRing (r1 ++ r2) a = processRing r2 (processRing r1 a).
Proof.
  revert a; induction r1 as [| [x y] rest IH]; intros a; simpl; auto.
Qed.

Lemma processPolys_concat (polys : list (list ring)) (a : acc) :
  Forall (fun poly => poly <> []) polys ->
  processPolys polys a = Ok (processRing (List.concat (map outerRing polys)) a).
Proof.
  intros H; revert a; induction H as [| poly rest Hp _ IH]; intros a.
  - reflexivity.
  - destruct poly as [| outer holes]; [congruence |].
    simpl. rewrite IH, processRing_app. reflexivity.
Qed.

Lemma walk_outerVertices (g : geometry) :
  hasOuterRings g ->
  match g with
  | Polygon coords => processFirst coords acc0
  | MultiPolygon coords => processPolys coords acc0
  | OtherGeometry _ => Ok acc0
  end = Ok (processRing (outerVertices g) acc0).
Proof.
  destruct g as [coords | coords | ty]; simpl; intros H.
  - destruct coords as [| outer holes]; [congruence | reflexivity].
  - now apply processPolys_concat.
  - reflexivity.
Qed.

Lemma centroid_mean (g : geometry) :
  hasOuterRings g -> _centroid g = Ok (vertexMean (outerVertices g)).
Proof.
  intros H. unfold _centroid.
  rewrite (walk_outerVertices g H), processRing_sums.
  destruct (outerVertices g) as [| v vs]; cbn [bind count].
  - reflexivity.
  - cbn [acc0 sumLat sumLng count Nat.add List.length vertexMean].
    do 3 f_equal; f_equal; lra.
Qed.

(** The hole of the first polygon does not count. *)
Example centroid_twoIslands : _centroid twoIslands = Ok (Some (14 / 3, 5)).
Proof.
  rewrite centroid_mean by (repeat constructor; discriminate).
  simpl. do 3 f_equal; lra.
Qed.

(** A ring without vertices gives [null]. *)
Example centroid_empty_ring : _centroid (Polygon [[]]) = Ok None.
Proof. reflexivity. Qed.

(** A polygon without any ring makes [_centroid] throw. *)
Example centroid_no_ring :
  _centroid (Polygon []) = TypeError /\
  _centroid (MultiPolygon [[]]) = TypeError.
Proof. split; reflexivity. Qed.

End Centroid.



(** ** Great-circle distance *)

Section Haversine.







End Haversine.


(** ** Nearest station *)

Section Nearest.

Variables plat plng : R.

#[local] Abbreviation dist := (distanceTo plat plng).





End Nearest.



(** ** The combined score *)

Section Score.

Lemma min_cap (x : R) : Math.min x 1 <= 1.
Proof. unfold Math.min. apply Rmin_r. Qed.

Lemma min_nonneg (x : R) : 0 <= x -> 0 <= Math.min x 1.
Proof. intros H. unfold Math.min. apply Rmin_glb; lra. Qed.

Lemma nearest_singleton (plat plng : R) (code : string) (st : station) :
  _nearestStation plat plng [(code, st)] = Some st.
Proof. reflexivity. Qed.

Lemma nearestSt_computeScore (sts : stations) (l : lsoa) :
  nearestSt (computeScore sts l) =
  match sts, centroid l with
  | _ :: _, Some (plat, plng) => _nearestStation plat plng sts
  | _, _ => None
  end.
Proof. destruct sts; reflexivity. Qed.

Lemma aqComp_computeScore (sts : stations) (l : lsoa) :
  aqComp (computeScore sts l) =
  match nearestSt (computeScore sts l) with
  | Some st => match maxAQI st with
               | Some m => Math.min (m / 10) 1
               | None => 0.5
               end
  | None => 0.5
  end.
Proof. reflexivity. Qed.

End Score.

(** C1, as the code has it. The combined score is the weighted sum
    0.4, 0.4, 0.2 of the three components as computed: no component is
    clamped, only the air-quality component is capped at 1. When the decile,
    if present, lies in 1..10 and the matched station's index, if present,
    is not negative, every component and the combined score lie in [0,1]. *)
Theorem score_weighted_sum (sts : stations) (l : lsoa) :
  let f := computeScore sts l in
  score f = 0.4 * depComp f + 0.4 * aqComp f + 0.2 * noiseComp f /\
  aqComp f <= 1 /\
  ((forall d, imd_decile l = Some d -> 1 <= d <= 10) ->
   (forall st m, nearestSt f = Some st -> maxAQI st = Some m -> 0 <= m) ->
   0 <= depComp f <= 1 /\ 0 <= aqComp f <= 1 /\ 0 <= noiseComp f <= 1 /\
   score f = clampedScore f /\ 0 <= score f <= 1).
Proof.
  intros f.
  assert (Hs : score f = 0.4 * depComp f + 0.4 * aqComp f + 0.2 * noiseComp f)
    by reflexivity.
  assert (Hn : noiseComp f = 0.5) by reflexivity.
  assert (Hcap : aqComp f <= 1).
  { unfold f; rewrite aqComp_computeScore.
    destruct (nearestSt (computeScore sts l)) as [st |]; [| lra].
    destruct (maxAQI st) as [m |]; [apply min_cap | lra]. }
  split; [exact Hs |]. split; [exact Hcap |].
  intros Hdec Haqi.
  assert (Hd : 0 <= depComp f <= 1).
  { unfold f, computeScore; cbn [depComp].
    destruct (imd_decile l) as [d |]; [| lra].
    specialize (Hdec d eq_refl). lra. }
  assert (Ha : 0 <= aqComp f).
  { unfold f; rewrite aqComp_computeScore. fold f.
    destruct (nearestSt f) as [st |] eqn:Est; [| lra].
    destruct (maxAQI st) as [m |] eqn:Em; [| lra].
    apply min_nonneg. specialize (Haqi st m eq_refl Em). lra. }
  assert (Hc : forall x, 0 <= x <= 1 -> clamp01 x = x).
  { intros x Hx. unfold clamp01.
    rewrite Rmin_right by lra. rewrite Rmax_right by lra. reflexivity. }
  repeat split; try lra.
  unfold clampedScore.
  rewrite (Hc (depComp f)), (Hc (aqComp f)), (Hc (noiseComp f)) by lra.
  exact Hs.
Qed.

Lemma score_weighted_sum_witness :
  let f := computeScore [("WA7", siteA (Some 3))]%string (putney (Some 4)) in
  0 <= depComp f <= 1 /\ 0 <= aqComp f <= 1 /\ 0 <= noiseComp f <= 1 /\
  score f = clampedScore f /\ 0 <= score f <= 1.
Proof.
  apply (proj2 (proj2 (score_weighted_sum [("WA7", siteA (Some 3))]%string
                                          (putney (Some 4))))).
  - intros d H; injection H as <-; lra.
  - intros st m H; injection H as <-. intros Hm; injection Hm as <-; lra.
Defined.

(** C1 fails as stated: with decile 10 and a matched station whose index is
    -10 the air-quality component is -1 and the score -0.26. *)
Lemma score_not_clamped :
  let f := computeScore [("WA7", siteA (Some (-10)))]%string (putney (Some 10)) in
  aqComp f = -1 /\ score f = -0.26 /\
  ~ scoreAsSpecified [("WA7", siteA (Some (-10)))]%string (putney (Some 10)).
Proof.
  intros f.
  assert (Ha : aqComp f = -1).
  { unfold f, computeScore; cbn.
    unfold Math.min. rewrite Rmin_left by lra. lra. }
  assert (Hs : score f = -0.26).
  { replace (score f) with (0.4 * depComp f + 0.4 * aqComp f + 0.2 * noiseComp f)
      by reflexivity.
    rewrite Ha. unfold f, computeScore; cbn. lra. }
  repeat split; auto.
  unfold scoreAsSpecified; fold f. intros [_ H]. lra.
Qed.

(** C2. The score closure is a total function of the station mapping and the
    LSOA: nothing in it can throw. With no station or no centroid the
    air-quality component is the neutral 0.5 and no station is matched; with
    no decile and no station all three components are 0.5 and the combined
    score is exactly 0.5. *)
Theorem score_neutral_defaults (sts : stations) (l : lsoa) :
  let f := computeScore sts l in
  (sts = [] \/ centroid l = None -> aqComp f = 0.5 /\ nearestSt f = None) /\
  (imd_decile l = None -> sts = [] ->
   depComp f = 0.5 /\ aqComp f = 0.5 /\ noiseComp f = 0.5 /\ score f = 0.5).
Proof.
  intros f.
  assert (Hnone : sts = [] \/ centroid l = None -> nearestSt f = None).
  { unfold f; rewrite nearestSt_computeScore.
    intros [-> | ->]; [reflexivity | now destruct sts]. }
  assert (Haq : sts = [] \/ centroid l = None -> aqComp f = 0.5).
  { intros H. unfold f; rewrite aqComp_computeScore. fold f.
    now rewrite (Hnone H). }
  split; [auto |].
  intros Hdec Hsts.
  assert (Hd : depComp f = 0.5).
  { unfold f, computeScore; cbn [depComp]. now rewrite Hdec. }
  assert (Hn : noiseComp f = 0.5) by reflexivity.
  assert (Ha : aqComp f = 0.5) by auto.
  repeat split; auto.
  replace (score f) with (0.4 * depComp f + 0.4 * aqComp f + 0.2 * noiseComp f)
    by reflexivity.
  rewrite Hd, Ha, Hn. lra.
Qed.

Lemma score_neutral_defaults_witness :
  let f := computeScore [] (putney None) in
  (aqComp f = 0.5 /\ nearestSt f = None) /\
  (depComp f = 0.5 /\ aqComp f = 0.5 /\ noiseComp f = 0.5 /\ score f = 0.5).
Proof.
  pose proof (score_neutral_defaults [] (putney None)) as [H1 H2].
  split; [apply H1; left; reflexivity | apply H2; reflexivity].
Defined.

(** C3. The deprivation component is (11 - decile)/10 for a decile and 0.5
    without one; a station is matched only when there are stations and a
    centroid, and it is then the nearest one; the air-quality component is
    min(maxAQI/10, 1) for a matched station that has an index and 0.5
    otherwise; the noise component is 0.5. With decile 1 and a matched
    station of index 10 the components are 1, 1 and 0.5 and the score 0.9. *)
Theorem score_components (sts : stations) (l : lsoa) :
  let f := computeScore sts l in
  depComp f = match imd_decile l with
              | Some decile => (11 - decile) / 10
              | None => 0.5
              end /\
  nearestSt f = match sts, centroid l with
                | _ :: _, Some (plat, plng) => _nearestStation plat plng sts
                | _, _ => None
                end /\
  aqComp f = match nearestSt f with
             | Some st => match maxAQI st with
                          | Some m => Rmin (m / 10) 1
                          | None => 0.5
                          end
             | None => 0.5
             end /\
  noiseComp f = 0.5 /\
  (forall st, imd_decile l = Some 1 -> nearestSt f = Some st ->
              maxAQI st = Some 10 ->
              depComp f = 1 /\ aqComp f = 1 /\ noiseComp f = 0.5 /\
              score f = 0.9).
Proof.
  intros f.
  assert (Hd : depComp f = match imd_decile l with
                           | Some decile => (11 - decile) / 10
                           | None => 0.5
                           end) by reflexivity.
  assert (Ha : aqComp f = match nearestSt f with
                          | Some st => match maxAQI st with
                                       | Some m => Rmin (m / 10) 1
                                       | None => 0.5
                                       end
                          | None => 0.5
                          end) by reflexivity.
  split; [exact Hd |].
  split; [apply nearestSt_computeScore |].
  split; [exact Ha |].
  split; [reflexivity |].
  intros st Hdec Hst Hm.
  rewrite Hdec in Hd. rewrite Hst, Hm in Ha.
  rewrite Rmin_right in Ha by lra.
  assert (Hd1 : depComp f = 1) by lra.
  repeat split; auto.
  replace (score f) with (0.4 * depComp f + 0.4 * aqComp f + 0.2 * noiseComp f)
    by reflexivity.
  rewrite Hd1, Ha. replace (noiseComp f) with 0.5 by reflexivity. lra.
Qed.

Lemma score_components_witness :
  let f := computeScore [("WA7", siteA (Some 10))]%string (putney (Some 1)) in
  depComp f = 1 /\ aqComp f = 1 /\ noiseComp f = 0.5 /\ score f = 0.9.
Proof.
  pose proof (score_components [("WA7", siteA (Some 10))]%string
                               (putney (Some 1))) as (_ & _ & _ & _ & H).
  apply (H (siteA (Some 10))); reflexivity.
Defined.

(** ** Colour interpolation *)

Section Interpolation.

Lemma Rleb_true (x y : R) : x <= y -> Rleb x y = true.
Proof. intros H; unfold Rleb; destruct (Rle_dec x y); [reflexivity | lra]. Qed.

Lemma Rleb_false (x y : R) : y < x -> Rleb x y = false.
Proof. intros H; unfold Rleb; destruct (Rle_dec x y); [lra | reflexivity]. Qed.

Lemma Rleb_le (x y : R) : Rleb x y = true -> x <= y.
Proof. unfold Rleb; destruct (Rle_dec x y); [auto | discriminate]. Qed.

Lemma clamp_range (x : R) : 0 <= Math.max 0 (Math.min 1 x) <= 1.
Proof.
  unfold Math.max, Math.min; split.
  - apply Rmax_l.
  - apply Rmax_lub; [lra | apply Rmin_l].
Qed.

Lemma clamp_inside (x : R) : 0 <= x <= 1 -> Math.max 0 (Math.min 1 x) = x.
Proof.
  intros H; unfold Math.max, Math.min.
  rewrite Rmin_right by lra. apply Rmax_right; lra.
Qed.

Lemma clamp_below (x : R) : x <= 0 -> Math.max 0 (Math.min 1 x) = 0.
Proof.
  intros H; unfold Math.max, Math.min.
  rewrite Rmin_right by lra. apply Rmax_left; lra.
Qed.

Lemma clamp_above (x : R) : 1 <= x -> Math.max 0 (Math.min 1 x) = 1.
Proof.
  intros H; unfold Math.max, Math.min.
  rewrite Rmin_left by lra. apply Rmax_right; lra.
Qed.

(** The score enters [scoreChannels] only through its clamp. *)
Lemma scoreChannels_clamp (stops : list stop) (x : R) :
  scoreChannels stops x = scoreChannels stops (Math.max 0 (Math.min 1 x)).
Proof.
  unfold scoreChannels.
  rewrite (clamp_inside (Math.max 0 (Math.min 1 x)) (clamp_range x)).
  reflexivity.
Qed.

Lemma span_nonzero (lo hi : stop) : span lo hi <> 0.
Proof. unfold span; destruct (Req_dec_T (t hi - t lo) 0); lra. Qed.

Lemma span_flat (lo hi : stop) : t hi - t lo = 0 -> span lo hi = 1.
Proof. intros H; unfold span; destruct (Req_dec_T (t hi - t lo) 0); lra. Qed.

Lemma span_wide (lo hi : stop) : t hi - t lo <> 0 -> span lo hi = t hi - t lo.
Proof. intros H; unfold span; destruct (Req_dec_T (t hi - t lo) 0); lra. Qed.

(** Inside a bracket the interpolation parameter is in [0,1]. *)
Lemma unit_parameter (lo hi : stop) (s : R) :
  t lo <= s <= t hi -> 0 <= (s - t lo) / span lo hi <= 1.
Proof.
  intros [H1 H2].
  destruct (Req_dec_T (t hi - t lo) 0) as [E | N].
  - rewrite (span_flat lo hi E).
    replace s with (t lo) by lra. lra.
  - rewrite (span_wide lo hi N).
    assert (Hpos : 0 < t hi - t lo) by lra.
    split.
    + apply Rmult_le_reg_r with (t hi - t lo); [exact Hpos |].
      unfold Rdiv; rewrite Rmult_assoc, Rinv_l by lra. lra.
    + apply Rmult_le_reg_r with (t hi - t lo); [exact Hpos |].
      unfold Rdiv; rewrite Rmult_assoc, Rinv_l by lra. lra.
Qed.

Lemma round_value (z : Z) (x : R) :
  IZR z - / 2 <= x < IZR z + / 2 -> Math.round x = z.
Proof. intros H; unfold Math.round; apply Zfloor_eq; lra. Qed.

Lemma round_lower (z : Z) (x : R) : IZR z <= x -> (z <= Math.round x)%Z.
Proof. intros H; unfold Math.round; apply Zfloor_lub; lra. Qed.

Lemma round_upper (z : Z) (x : R) : x <= IZR z -> (Math.round x <= z)%Z.
Proof.
  intros H; unfold Math.round.
  pose proof (Zfloor_bound (x + / 2)) as [B _].
  assert (L : IZR (Zfloor (x + / 2)) < IZR (z + 1)).
  { rewrite plus_IZR. lra. }
  apply lt_IZR in L. lia.
Qed.

(** Rounded interpolation stays between the two channel values. *)
Lemma lerp_between (a c : Z) (u : R) :
  0 <= u <= 1 -> between (_lerp a c u) a c.
Proof.
  intros [U0 U1]; unfold between, _lerp.
  destruct (Z.le_ge_cases a c) as [Hac | Hca].
  - rewrite Z.min_l, Z.max_r by lia.
    apply IZR_le in Hac.
    split; [apply round_lower | apply round_upper]; nra.
  - rewrite Z.min_r, Z.max_l by lia.
    apply IZR_le in Hca.
    split; [apply round_lower | apply round_upper]; nra.
Qed.

(** What the loop finds is an adjacent pair around [s]. *)
Lemma bracket_sound (s : R) (stops : list stop) (lo hi : stop) :
  bracket s stops = Some (lo, hi) ->
  exists i, nth_error stops i = Some lo /\
            nth_error stops (S i) = Some hi /\
            t lo <= s <= t hi.
Proof.
  induction stops as [| a rest IH]; [discriminate |].
  destruct rest as [| c rest']; [discriminate |].
  cbn [bracket].
  destruct (Rleb (t a) s && Rleb s (t c)) eqn:E.
  - intros H; injection H as <- <-.
    apply andb_true_iff in E as [E1 E2].
    exists 0%nat; repeat split; auto using Rleb_le.
  - intros H. destruct (IH H) as (i & Hi & Hsi & Hb).
    exists (S i); auto.
Qed.

(** Between the first and the last position the loop finds a pair. *)
Lemma bracket_complete (s : R) (stops : list stop) (first last : stop) :
  (2 <= List.length stops)%nat ->
  nth_error stops 0 = Some first ->
  nth_error stops (List.length stops - 1) = Some last ->
  t first <= s <= t last ->
  bracket s stops <> None.
Proof.
  revert first; induction stops as [| a rest IH]; intros first Hlen Hf Hl Hs.
  - simpl in Hlen; lia.
  - destruct rest as [| c rest']; [simpl in Hlen; lia |].
    cbn [bracket]. simpl in Hf; injection Hf as <-.
    destruct (Rleb (t a) s && Rleb s (t c)) eqn:E; [discriminate |].
    apply andb_false_iff in E.
    assert (Hc : t c < s).
    { destruct E as [E | E].
      - rewrite Rleb_true in E by lra; discriminate.
      - destruct (Rle_dec s (t c)) as [Hle | Hgt]; [| lra].
        rewrite Rleb_true in E by exact Hle; discriminate. }
    replace (List.length (a :: c :: rest') - 1)%nat
      with (S (List.length (c :: rest') - 1)) in Hl by (simpl; lia).
    cbn [nth_error] in Hl.
    destruct rest' as [| d rest''].
    + simpl in Hl; injection Hl as <-. lra.
    + apply (IH c); [simpl; lia | reflexivity | exact Hl | lra].
Qed.

(** On a valid table every score is interpolated inside a bracket. *)
Lemma channels_bracketed (stops : list stop) (x : R) :
  validStops stops ->
  exists i lo hi c,
    nth_error stops i = Some lo /\
    nth_error stops (S i) = Some hi /\
    t lo <= Math.max 0 (Math.min 1 x) <= t hi /\
    scoreChannels stops x = Ok c /\
    interpolated lo hi (Math.max 0 (Math.min 1 x)) c /\
    between (red c) (r lo) (r hi) /\
    between (green c) (g lo) (g hi) /\
    between (blue c) (b lo) (b hi).
Proof.
  intros (Hlen & _ & Hfirst & Hlast).
  set (s := Math.max 0 (Math.min 1 x)).
  pose proof (clamp_range x) as Hs; fold s in Hs.
  destruct (nth_error stops 0) as [first |] eqn:Ef; [| discriminate].
  destruct (nth_error stops (List.length stops - 1)) as [last |] eqn:El;
    [| discriminate].
  simpl in Hfirst, Hlast.
  injection Hfirst as Hfirst; injection Hlast as Hlast.
  destruct (bracket s stops) as [[lo hi] |] eqn:Eb.
  - destruct (bracket_sound s stops lo hi Eb) as (i & Hi & Hsi & Hb).
    pose proof (unit_parameter lo hi s Hb) as Hu.
    exists i, lo, hi.
    eexists; split; [exact Hi |]. split; [exact Hsi |]. split; [exact Hb |].
    split; [unfold scoreChannels; fold s; rewrite Eb; reflexivity |].
    split; [repeat split |].
    cbn [red green blue].
    split; [apply (lerp_between (r lo) (r hi) _ Hu) |].
    split; [apply (lerp_between (g lo) (g hi) _ Hu) |].
    apply (lerp_between (b lo) (b hi) _ Hu).
  - exfalso.
    apply (bracket_complete s stops first last Hlen Ef El); [lra | exact Eb].
Qed.

End Interpolation.

Section Tables.

Lemma nonempty_Ok (stops : list stop) (x : R) :
  stops <> [] -> exists c, scoreChannels stops x = Ok c.
Proof.
  intros Hne. unfold scoreChannels.
  destruct (bracket _ stops) as [[lo hi] |]; [eexists; reflexivity |].
  destruct stops as [| a rest]; [congruence |].
  cbn [nth_error].
  destruct (nth_error (a :: rest) (List.length (a :: rest) - 1)) eqn:E.
  - eexists; reflexivity.
  - apply nth_error_None in E. simpl in E. lia.
Qed.

Lemma COLOR_STOPS_valid : validStops COLOR_STOPS.
Proof.
  repeat split; try (simpl; lia); try reflexivity.
  intros [| [| [| [| [| i]]]]] lo hi H1 H2; simpl in H1, H2;
    try discriminate;
    try (injection H1 as <-; injection H2 as <-; simpl; lra).
  all: try (destruct i; discriminate).
Qed.

Lemma COLOR_STOPS_inByte : channelsInByte COLOR_STOPS.
Proof. repeat constructor; simpl; lia. Qed.

Lemma flatStops_valid : validStops flatStops.
Proof.
  repeat split; try (simpl; lia); try reflexivity.
  intros [| [| [| i]]] lo hi H1 H2; simpl in H1, H2;
    try discriminate;
    try (injection H1 as <-; injection H2 as <-; simpl; lra).
  all: try (destruct i; discriminate).
Qed.

Lemma flatStops_inByte : channelsInByte flatStops.
Proof. repeat constructor; simpl; lia. Qed.

Lemma between_inByte (z a c : Z) :
  between z a c -> inByte a -> inByte c -> inByte z.
Proof. unfold between, inByte; lia. Qed.

Lemma valid_inByte (stops : list stop) (x : R) :
  validStops stops -> channelsInByte stops ->
  exists c, scoreChannels stops x = Ok c /\
            inByte (red c) /\ inByte (green c) /\ inByte (blue c).
Proof.
  intros Hv Hb.
  destruct (channels_bracketed stops x Hv)
    as (i & lo & hi & c & Hi & Hsi & _ & Hc & _ & Br & Bg & Bb).
  unfold channelsInByte in Hb; rewrite Forall_forall in Hb.
  destruct (Hb lo (nth_error_In _ _ Hi)) as (Lr & Lg & Lb).
  destruct (Hb hi (nth_error_In _ _ Hsi)) as (Hr & Hg & Hb').
  exists c; split; [exact Hc |].
  repeat split; eapply between_inByte; eauto.
Qed.

End Tables.

(** C8. On a valid stop list and for [t] in [0,1], the colour is the rounded
    linear interpolation of two adjacent stops that have [t] between their
    positions, and each of its channels lies between the two stops' values
    of that channel. *)
Theorem interpolate_no_overshoot (stops : list stop) (x : R) :
  validStops stops -> 0 <= x <= 1 ->
  exists i lo hi c,
    nth_error stops i = Some lo /\
    nth_error stops (S i) = Some hi /\
    t lo <= x <= t hi /\
    scoreChannels stops x = Ok c /\
    interpolated lo hi x c /\
    between (red c) (r lo) (r hi) /\
    between (green c) (g lo) (g hi) /\
    between (blue c) (b lo) (b hi).
Proof.
  intros Hv Hx.
  pose proof (channels_bracketed stops x Hv) as H.
  rewrite (clamp_inside x Hx) in H. exact H.
Qed.

Lemma interpolate_no_overshoot_witness :
  exists i lo hi c,
    nth_error COLOR_STOPS i = Some lo /\
    nth_error COLOR_STOPS (S i) = Some hi /\
    t lo <= 0.3 <= t hi /\
    scoreChannels COLOR_STOPS 0.3 = Ok c /\
    interpolated lo hi 0.3 c /\
    between (red c) (r lo) (r hi) /\
    between (green c) (g lo) (g hi) /\
    between (blue c) (b lo) (b hi).
Proof.
  apply (interpolate_no_overshoot COLOR_STOPS 0.3 COLOR_STOPS_valid); lra.
Defined.

(** C7. The score is clamped to [0,1]: below 0 the colour is the colour at
    0 and above 1 it is the colour at 1, on every stop list and so for
    [_scoreColor]. *)
Theorem interpolate_clamps (stops : list stop) (x : R) :
  (x < 0 -> scoreChannels stops x = scoreChannels stops 0 /\
            _scoreColor x = _scoreColor 0) /\
  (1 < x -> scoreChannels stops x = scoreChannels stops 1 /\
            _scoreColor x = _scoreColor 1).
Proof.
  split; intros Hx.
  - assert (E : forall tbl, scoreChannels tbl x = scoreChannels tbl 0).
    { intros tbl. rewrite (scoreChannels_clamp tbl x), clamp_below by lra.
      reflexivity. }
    split; [apply E |]. unfold _scoreColor. rewrite E. reflexivity.
  - assert (E : forall tbl, scoreChannels tbl x = scoreChannels tbl 1).
    { intros tbl. rewrite (scoreChannels_clamp tbl x), clamp_above by lra.
      reflexivity. }
    split; [apply E |]. unfold _scoreColor. rewrite E. reflexivity.
Qed.

Lemma interpolate_clamps_witness :
  (scoreChannels COLOR_STOPS (-5) = scoreChannels COLOR_STOPS 0 /\
   _scoreColor (-5) = _scoreColor 0) /\
  (scoreChannels COLOR_STOPS 5 = scoreChannels COLOR_STOPS 1 /\
   _scoreColor 5 = _scoreColor 1).
Proof.
  split.
  - apply (proj1 (interpolate_clamps COLOR_STOPS (-5))); lra.
  - apply (proj2 (interpolate_clamps COLOR_STOPS 5)); lra.
Defined.

(** C10. The divisor of the interpolation is never zero: a zero span is
    replaced by 1. On every valid stop list with channels in [0,255], also
    with adjacent stops at one position, and on the built-in table, every
    score gives a colour whose channels are integers in [0,255]. *)
Theorem scoreColor_total :
  (forall lo hi, span lo hi <> 0 /\ (t hi = t lo -> span lo hi = 1)) /\
  (forall stops x,
      validStops stops -> channelsInByte stops ->
      exists c, scoreChannels stops x = Ok c /\
                inByte (red c) /\ inByte (green c) /\ inByte (blue c)) /\
  (forall x,
      exists c, scoreChannels COLOR_STOPS x = Ok c /\
                _scoreColor x = Ok (render c) /\
                inByte (red c) /\ inByte (green c) /\ inByte (blue c)).
Proof.
  split; [| split].
  - intros lo hi; split; [apply span_nonzero |].
    intros E; apply span_flat; lra.
  - apply valid_inByte.
  - intros x.
    destruct (valid_inByte COLOR_STOPS x COLOR_STOPS_valid COLOR_STOPS_inByte)
      as (c & Hc & Hin).
    exists c; split; [exact Hc |]. split; [| exact Hin].
    unfold _scoreColor; rewrite Hc; reflexivity.
Qed.

Lemma scoreColor_total_witness :
  span (mkStop 0 0 0 0) (mkStop 0 100 100 100) = 1 /\
  exists c, scoreChannels flatStops 0 = Ok c /\
            inByte (red c) /\ inByte (green c) /\ inByte (blue c).
Proof.
  split.
  - apply (proj1 scoreColor_total); reflexivity.
  - apply (proj1 (proj2 scoreColor_total) flatStops 0
             flatStops_valid flatStops_inByte).
Defined.

(** ** The built-in table at a few scores *)

Ltac pick_bracket :=
  repeat (first [ rewrite Rleb_true by (cbn; lra)
                | rewrite Rleb_false by (cbn; lra) ];
          cbn [andb]).

Ltac pick_span :=
  first [ rewrite span_flat by (cbn; lra) | rewrite span_wide by (cbn; lra) ].

Ltac run_channels :=
  unfold scoreChannels;
  rewrite clamp_inside by lra;
  cbn [bracket nth_error List.length Nat.sub]; pick_bracket;
  cbn [nth_error]; pick_span;
  f_equal; unfold _lerp; f_equal; apply round_value; cbn [t r g b]; lra.

Example scoreChannels_0 : scoreChannels COLOR_STOPS 0 = Ok (mkRgb 44 160 44).
Proof. unfold COLOR_STOPS. run_channels. Qed.

Example scoreChannels_03 : scoreChannels COLOR_STOPS 0.3 = Ok (mkRgb 162 183 40).
Proof. unfold COLOR_STOPS. run_channels. Qed.

Example scoreChannels_05 : scoreChannels COLOR_STOPS 0.5 = Ok (mkRgb 240 165 0).
Proof. unfold COLOR_STOPS. run_channels. Qed.

Example scoreChannels_1 : scoreChannels COLOR_STOPS 1 = Ok (mkRgb 180 30 30).
Proof. unfold COLOR_STOPS. run_channels. Qed.

(** A bracket of width zero: the span is taken as 1 and the colour is the
    lower stop's. *)
Example scoreChannels_flat : scoreChannels flatStops 0 = Ok (mkRgb 0 0 0).
Proof. unfold flatStops. run_channels. Qed.

Example scoreColor_05 : _scoreColor 0.5 = Ok "rgb(240,165,0)"%string.
Proof. unfold _scoreColor. rewrite scoreChannels_05. reflexivity. Qed.

(** ** Malformed stop lists *)

Lemma unsortedStops_unsorted : ~ sortedAscending unsortedStops.
Proof.
  intros H.
  specialize (H 0%nat (mkStop 1 180 30 30) (mkStop 0 44 160 44) eq_refl eq_refl).
  simpl in H. lra.
Qed.

(** C6 fails as stated: a list of one stop and a list sorted the wrong way
    round are both taken, and a colour comes back. *)
Lemma malformed_stops_give_a_colour :
  malformedStops oneStop /\
  scoreChannels oneStop 0.5 = Ok (mkRgb 44 160 44) /\
  malformedStops unsortedStops /\
  scoreChannels unsortedStops 0.5 = Ok (mkRgb 112 95 37).
Proof.
  split; [left; simpl; lia |].
  split; [unfold oneStop; run_channels |].
  split; [right; exact unsortedStops_unsorted |].
  unfold unsortedStops.
  unfold scoreChannels;
  rewrite clamp_inside by lra;
  cbn [bracket nth_error List.length Nat.sub]; pick_bracket;
  cbn [nth_error]; pick_span; cbn [t r g b].
  replace ((0.5 - 1) / (0 - 1)) with 0.5 by lra.
  f_equal; unfold _lerp; f_equal; apply round_value; lra.
Qed.

(** C6, as the code has it. The stop list is not validated and no gradient
    error exists: every list with at least one stop, whatever its length and
    order, gives a colour for every score. Only the empty list fails, on
    reading a position of [undefined]; the built-in table has five stops, so
    [_scoreColor] never fails. *)
Theorem scoreColor_unvalidated (stops : list stop) (x : R) :
  (stops = [] -> scoreChannels stops x = TypeError) /\
  (stops <> [] -> exists c, scoreChannels stops x = Ok c) /\
  (exists c, scoreChannels COLOR_STOPS x = Ok c /\
             _scoreColor x = Ok (render c)).
Proof.
  split; [intros ->; reflexivity |].
  split; [apply nonempty_Ok |].
  destruct (nonempty_Ok COLOR_STOPS x) as [c Hc]; [discriminate |].
  exists c; split; [exact Hc |].
  unfold _scoreColor; rewrite Hc; reflexivity.
Qed.

Lemma scoreColor_unvalidated_witness :
  scoreChannels [] 0.5 = TypeError /\
  (exists c, scoreChannels oneStop 0.5 = Ok c) /\
  (exists c, scoreChannels unsortedStops 0.5 = Ok c).
Proof.
  split; [| split].
  - apply (proj1 (scoreColor_unvalidated [] 0.5)); reflexivity.
  - apply (proj1 (proj2 (scoreColor_unvalidated oneStop 0.5))); discriminate.
  - apply (proj1 (proj2 (scoreColor_unvalidated unsortedStops 0.5)));
      discriminate.
Defined.

(** ** Air-quality readings *)

Section Readings.

Import AirQualityLayer.

Lemma ltb_true (x y : R) : x < y -> Js.ltb x y = true.
Proof. intros H; unfold Js.ltb; destruct (Rlt_dec x y); [reflexivity | lra]. Qed.

Lemma ltb_false (x y : R) : y <= x -> Js.ltb x y = false.
Proof. intros H; unfold Js.ltb; destruct (Rlt_dec x y); [lra | reflexivity]. Qed.

Lemma leb_true (x y : R) : x <= y -> Js.leb x y = true.
Proof. intros H; unfold Js.leb; destruct (Rle_dec x y); [reflexivity | lra]. Qed.

Lemma leb_false (x y : R) : y < x -> Js.leb x y = false.
Proof. intros H; unfold Js.leb; destruct (Rle_dec x y); [lra | reflexivity]. Qed.

(** The loop ends on the variable it was entered with or on a reading, and
    on nothing smaller than either. *)
(** A reading of the list is that of the head, where its bound is at
    hand, or one of the tail. *)
Ltac bound_head Ev :=
  let Ew := fresh "Ew" in
  intros ? ? [<- | ?] Ew;
  [ rewrite Ev in Ew; first [ injection Ew as <-; lra | discriminate Ew ]
  | eauto ].

Lemma maxLoop_spec (ps : list pollutant) (best : option R) :
  match maxLoop ps best with
  | None => best = None /\ forall p, In p ps -> AirQualityIndex p = None
  | Some m =>
      (best = Some m \/ exists p, In p ps /\ AirQualityIndex p = Some m) /\
      (forall b0, best = Some b0 -> b0 <= m) /\
      (forall p v, In p ps -> AirQualityIndex p = Some v -> v <= m)
  end.
Proof.
  revert best; induction ps as [| p rest IH]; intros best.
  - simpl. destruct best as [m |].
    + split; [now left |]. split; [intros b0 E; injection E as <-; lra |].
      intros p v [].
    + split; [reflexivity | intros p []].
  - cbn [maxLoop]. unfold parseFloat.
    destruct (AirQualityIndex p) as [v |] eqn:Ev.
    + destruct best as [m |].
      * unfold Js.ltb. destruct (Rlt_dec m v) as [Hlt | Hge].
        -- specialize (IH (Some v)).
           destruct (maxLoop rest (Some v)) as [r |].
           ++ destruct IH as ([E | (q & Hq & Eq)] & Hb & Hall).
              ** injection E as <-. split; [right; exists p; split; [now left | exact Ev] |].
                 split; [intros b0 E; injection E as <-; lra |].
                 bound_head Ev.
              ** split; [right; exists q; split; [now right | exact Eq] |].
                 specialize (Hb v eq_refl).
                 split; [intros b0 E; injection E as <-; lra |].
                 bound_head Ev.
           ++ destruct IH as [E _]; discriminate E.
        -- specialize (IH (Some m)).
           destruct (maxLoop rest (Some m)) as [r |].
           ++ destruct IH as ([E | (q & Hq & Eq)] & Hb & Hall).
              ** injection E as <-. split; [now left |].
                 split; [intros b0 E; injection E as <-; lra |].
                 bound_head Ev.
              ** split; [right; exists q; split; [now right | exact Eq] |].
                 specialize (Hb m eq_refl).
                 split; [intros b0 E; injection E as <-; lra |].
                 bound_head Ev.
           ++ destruct IH as [E _]; discriminate E.
      * specialize (IH (Some v)).
        destruct (maxLoop rest (Some v)) as [r |].
        -- destruct IH as ([E | (q & Hq & Eq)] & Hb & Hall).
           ++ injection E as <-. split; [right; exists p; split; [now left | exact Ev] |].
              split; [intros b0 E; discriminate E |].
              bound_head Ev.
           ++ split; [right; exists q; split; [now right | exact Eq] |].
              specialize (Hb v eq_refl).
              split; [intros b0 E; discriminate E |].
              bound_head Ev.
        -- destruct IH as [E _]; discriminate E.
    + specialize (IH best).
      destruct (maxLoop rest best) as [r |].
      * destruct IH as ([E | (q & Hq & Eq)] & Hb & Hall).
        -- split; [now left |]. split; [exact Hb |].
           bound_head Ev.
        -- split; [right; exists q; split; [now right | exact Eq] |].
           split; [exact Hb |].
           bound_head Ev.
      * destruct IH as [E Hall]. split; [exact E |].
        intros q [<- | Hin]; [exact Ev | auto].
Qed.

End Readings.

(** X1. [_maxAQI] returns [null] exactly when no pollutant has a reading;
    otherwise it returns one of the readings, and none is larger. *)
Theorem maxAQI_largest_reading (ps : list AirQualityLayer.pollutant) :
  (AirQualityLayer._maxAQI ps = None <->
   forall p, In p ps -> AirQualityLayer.AirQualityIndex p = None) /\
  (forall m, AirQualityLayer._maxAQI ps = Some m ->
     (exists p, In p ps /\ AirQualityLayer.AirQualityIndex p = Some m) /\
     (forall p v, In p ps -> AirQualityLayer.AirQualityIndex p = Some v ->
                  v <= m)).
Proof.
  unfold AirQualityLayer._maxAQI.
  pose proof (maxLoop_spec ps None) as H.
  destruct (AirQualityLayer.maxLoop ps None) as [r |].
  - destruct H as ([E | Hex] & _ & Hall); [discriminate E |].
    split.
    + split; [intros E; discriminate E |].
      intros Hnone. destruct Hex as (p & Hp & Ep).
      rewrite (Hnone p Hp) in Ep; discriminate Ep.
    + intros m E; injection E as <-. split; assumption.
  - destruct H as [_ Hall].
    split; [split; auto |]. intros m E; discriminate E.
Qed.

Lemma maxAQI_largest_reading_witness :
  (exists p, In p sampleReadings /\
             AirQualityLayer.AirQualityIndex p = Some 5) /\
  (forall p v, In p sampleReadings ->
               AirQualityLayer.AirQualityIndex p = Some v -> v <= 5).
Proof.
  apply (proj2 (maxAQI_largest_reading sampleReadings)).
  unfold AirQualityLayer._maxAQI, sampleReadings.
  cbn [AirQualityLayer.maxLoop AirQualityLayer.parseFloat
       AirQualityLayer.AirQualityIndex].
  rewrite (ltb_true 3 5) by lra. rewrite (ltb_false 5 2) by lra.
  reflexivity.
Defined.

(** ** Bands and swatches *)

Section Bands.

Import AirQualityLayer.

(** The band of a reading, by its position on the scale. *)
Lemma bandForAQI_by_threshold (a : R) :
  _bandForAQI (Some a) =
  if Rle_dec a 3 then nth_error BANDS 0
  else if Rle_dec a 6 then nth_error BANDS 1
  else if Rle_dec a 9 then nth_error BANDS 2
  else nth_error BANDS 3.
Proof.
  unfold _bandForAQI, BANDS; cbn [List.find max List.length Nat.sub nth_error].
  unfold Js.leb.
  destruct (Rle_dec a 3); [reflexivity |].
  destruct (Rle_dec a 6); [reflexivity |].
  destruct (Rle_dec a 9); [reflexivity |].
  destruct (Rle_dec a 10); reflexivity.
Qed.

End Bands.

(** X2. Every reading gets a band of the table. Up to 10 it is the first
    band that reaches the reading, so no band with a smaller bound does;
    above 10, where no band reaches it, it is the last band, Very High. *)
Theorem bandForAQI_tightest (a : R) :
  exists b,
    AirQualityLayer._bandForAQI (Some a) = Some b /\
    In b AirQualityLayer.BANDS /\
    (a <= 10 ->
     a <= AirQualityLayer.max b /\
     forall b', In b' AirQualityLayer.BANDS -> a <= AirQualityLayer.max b' ->
                AirQualityLayer.max b <= AirQualityLayer.max b') /\
    (10 < a -> AirQualityLayer.label b = "Very High"%string).
Proof.
  rewrite bandForAQI_by_threshold.
  destruct (Rle_dec a 3) as [H3 | H3];
    [| destruct (Rle_dec a 6) as [H6 | H6];
       [| destruct (Rle_dec a 9) as [H9 | H9]]];
    eexists; (split; [reflexivity |]);
    (split; [simpl; tauto |]);
    (split; [intros H10; split; [simpl; lra |] | intros H10; try lra; reflexivity]);
    intros b' Hin Hb';
    simpl in Hin;
    repeat (destruct Hin as [<- | Hin]; [simpl in *; lra |]);
    destruct Hin.
Qed.

Lemma bandForAQI_tightest_witness :
  exists b,
    AirQualityLayer._bandForAQI (Some 4) = Some b /\
    In b AirQualityLayer.BANDS /\
    (4 <= 10 ->
     4 <= AirQualityLayer.max b /\
     forall b', In b' AirQualityLayer.BANDS -> 4 <= AirQualityLayer.max b' ->
                AirQualityLayer.max b <= AirQualityLayer.max b') /\
    (10 < 4 -> AirQualityLayer.label b = "Very High"%string).
Proof. exact (bandForAQI_tightest 4). Defined.

(** X3. A marker has the no-data grey exactly when its site has no reading;
    with a reading it has the colour of the reading's band, which rises with
    the reading. *)
Theorem markerColor_no_data (maxAQI : option R) :
  (AirQualityLayer._markerColor maxAQI = AirQualityLayer.NO_DATA_COLOR <->
   maxAQI = None) /\
  (forall a b, maxAQI = Some a ->
     AirQualityLayer._bandForAQI maxAQI = Some b ->
     AirQualityLayer._markerColor maxAQI = AirQualityLayer.color b) /\
  (forall a a' b b', a <= a' ->
     AirQualityLayer._bandForAQI (Some a) = Some b ->
     AirQualityLayer._bandForAQI (Some a') = Some b' ->
     AirQualityLayer.max b <= AirQualityLayer.max b').
Proof.
  split; [| split].
  - destruct maxAQI as [a |]; [| split; reflexivity].
    split; [| intros E; discriminate E].
    unfold AirQualityLayer._markerColor.
    rewrite bandForAQI_by_threshold.
    destruct (Rle_dec a 3); [intros E; discriminate E |].
    destruct (Rle_dec a 6); [intros E; discriminate E |].
    destruct (Rle_dec a 9); intros E; discriminate E.
  - intros a b _ Hb. unfold AirQualityLayer._markerColor. now rewrite Hb.
  - intros a a' b b' Hle. rewrite !bandForAQI_by_threshold.
    destruct (Rle_dec a 3); destruct (Rle_dec a' 3); try lra;
      destruct (Rle_dec a 6); destruct (Rle_dec a' 6); try lra;
      destruct (Rle_dec a 9); destruct (Rle_dec a' 9); try lra;
      intros E E'; injection E as <-; injection E' as <-; simpl; lra.
Qed.

Lemma markerColor_no_data_witness :
  AirQualityLayer._markerColor None = AirQualityLayer.NO_DATA_COLOR /\
  AirQualityLayer._markerColor (Some 7) = "#e67e22"%string.
Proof.
  split.
  - apply (proj1 (markerColor_no_data None)); reflexivity.
  - apply (proj1 (proj2 (markerColor_no_data (Some 7))) 7
             (AirQualityLayer.mkBand 9 "High" "#e67e22" "aqi-high"));
      [reflexivity |].
    rewrite bandForAQI_by_threshold.
    destruct (Rle_dec 7 3); [lra |]. destruct (Rle_dec 7 6); [lra |].
    destruct (Rle_dec 7 9); [reflexivity | lra].
Defined.

(** ** Decile colours *)

Section Deciles.

Lemma at_index_whole {A : Type} (xs : list A) (k : Z) :
  (0 <= k)%Z -> Js.at_index xs (IZR k) = nth_error xs (Z.to_nat k).
Proof.
  intros Hk. unfold Js.at_index. rewrite ZfloorZ.
  destruct (Req_dec_T (IZR k) (IZR k)) as [_ | N]; [| congruence].
  destruct (Z.leb_spec 0 k); [reflexivity | lia].
Qed.

Lemma at_index_fraction {A : Type} (xs : list A) (x : R) :
  (forall k : Z, x <> IZR k) -> Js.at_index xs x = None.
Proof.
  intros H. unfold Js.at_index.
  destruct (Req_dec_T (IZR (Zfloor x)) x) as [E | _]; [| reflexivity].
  exfalso. apply (H (Zfloor x)). now symmetry.
Qed.

Lemma decileColor_in_range (d : R) :
  1 <= d <= 10 ->
  _decileColor (Some d) = Js.at_index DECILE_COLORS (d - 1).
Proof.
  intros [H1 H10]. unfold _decileColor, Js.ltb.
  destruct (Rlt_dec d 1); [lra |]. destruct (Rlt_dec 10 d); [lra |].
  reflexivity.
Qed.

Lemma decileColor_whole (k : Z) :
  (1 <= k <= 10)%Z ->
  _decileColor (Some (IZR k)) = nth_error DECILE_COLORS (Z.to_nat (k - 1)).
Proof.
  intros [H1 H10].
  rewrite decileColor_in_range
    by (split; [apply (IZR_le 1) | apply (IZR_le k 10)]; assumption).
  replace (IZR k - 1) with (IZR (k - 1)) by (rewrite minus_IZR; reflexivity).
  apply at_index_whole; lia.
Qed.

End Deciles.

(** X4. [_decileColor] gives each whole decile from 1 to 10 its own colour
    of the table, none of them the grey; no decile, a decile below 1 and a
    decile above 10 give the grey; a decile between 1 and 10 that is not a
    whole number gives [undefined]. *)
Theorem decileColor_cases :
  (forall k : Z, (1 <= k <= 10)%Z ->
     exists c, _decileColor (Some (IZR k)) = Some c /\
               nth_error DECILE_COLORS (Z.to_nat (k - 1)) = Some c /\
               c <> "#ccc"%string) /\
  (forall k k' : Z, (1 <= k <= 10)%Z -> (1 <= k' <= 10)%Z ->
     _decileColor (Some (IZR k)) = _decileColor (Some (IZR k')) -> k = k') /\
  _decileColor None = Some "#ccc"%string /\
  (forall d, d < 1 \/ 10 < d -> _decileColor (Some d) = Some "#ccc"%string) /\
  (forall d, 1 <= d <= 10 -> (forall k : Z, d <> IZR k) ->
     _decileColor (Some d) = None).
Proof.
  assert (Hten : forall k : Z, (1 <= k <= 10)%Z ->
            k = 1%Z \/ k = 2%Z \/ k = 3%Z \/ k = 4%Z \/ k = 5%Z \/
            k = 6%Z \/ k = 7%Z \/ k = 8%Z \/ k = 9%Z \/ k = 10%Z) by (intros; lia).
  split; [| split; [| split; [| split]]].
  - intros k Hk. rewrite (decileColor_whole k Hk).
    destruct (Hten k Hk) as [-> | [-> | [-> | [-> | [-> | [-> | [-> | [-> | [-> | ->]]]]]]]]];
      eexists; (split; [reflexivity |]); (split; [reflexivity | discriminate]).
  - intros k k' Hk Hk'.
    rewrite (decileColor_whole k Hk), (decileColor_whole k' Hk').
    destruct (Hten k Hk) as [-> | [-> | [-> | [-> | [-> | [-> | [-> | [-> | [-> | ->]]]]]]]]];
      destruct (Hten k' Hk') as [-> | [-> | [-> | [-> | [-> | [-> | [-> | [-> | [-> | ->]]]]]]]]];
      intros E; try reflexivity; discriminate E.
  - reflexivity.
  - intros d Hd. unfold _decileColor, Js.ltb.
    destruct (Rlt_dec d 1); [reflexivity |].
    destruct (Rlt_dec 10 d); [reflexivity | lra].
  - intros d Hd Hfrac. rewrite (decileColor_in_range d Hd).
    apply at_index_fraction. intros k E. apply (Hfrac (k + 1)%Z).
    rewrite plus_IZR. lra.
Qed.

Lemma decileColor_cases_witness :
  (exists c, _decileColor (Some 3) = Some c /\
             nth_error DECILE_COLORS 2 = Some c /\ c <> "#ccc"%string) /\
  _decileColor (Some 11) = Some "#ccc"%string /\
  _decileColor (Some 2.5) = None.
Proof.
  pose proof decileColor_cases as (Hwhole & _ & _ & Hout & Hfrac).
  split; [| split].
  - apply (Hwhole 3%Z); lia.
  - apply Hout; right; lra.
  - apply Hfrac; [lra |].
    intros k E.
    assert (H2 : IZR 2 < IZR k) by (rewrite <- E; lra).
    assert (H3 : IZR k < IZR 3) by (rewrite <- E; lra).
    apply lt_IZR in H2. apply lt_IZR in H3. lia.
Defined.

(** ** Escaping markup *)

Section Escape.

Lemma append_assoc (s1 s2 s3 : string) :
  ((s1 ++ s2) ++ s3 = s1 ++ (s2 ++ s3))%string.
Proof. induction s1 as [| x r IH]; simpl; [reflexivity | now rewrite IH]. Qed.

Lemma replaceAll_app (c : ascii) (by_ s1 s2 : string) :
  Js.replaceAll c by_ (s1 ++ s2) =
  (Js.replaceAll c by_ s1 ++ Js.replaceAll c by_ s2)%string.
Proof.
  induction s1 as [| x rest IH]; [reflexivity |].
  cbn [Js.replaceAll String.append]. rewrite IH.
  destruct (Ascii.eqb x c); [| reflexivity].
  symmetry. apply append_assoc.
Qed.

(** The three passes over a string are one pass over its characters. *)
Lemma three_passes (s : string) :
  Js.replaceAll ">" "&gt;"
    (Js.replaceAll "<" "&lt;" (Js.replaceAll "&" "&amp;" s))
  = entities false s.
Proof.
  induction s as [| x rest IH]; [reflexivity |].
  cbn [Js.replaceAll entities]. unfold entity.
  destruct (Ascii.eqb_spec x "&") as [-> | N1].
  - rewrite !replaceAll_app, IH. reflexivity.
  - cbn [Js.replaceAll].
    destruct (Ascii.eqb_spec x "<") as [-> | N2].
    + rewrite !replaceAll_app, IH. reflexivity.
    + cbn [Js.replaceAll].
      destruct (Ascii.eqb_spec x ">") as [-> | N3].
      * rewrite IH. reflexivity.
      * rewrite IH. reflexivity.
Qed.

Lemma four_passes (s : string) :
  AirQualityLayer._escape s = entities true s.
Proof.
  unfold AirQualityLayer._escape. rewrite three_passes.
  induction s as [| x rest IH]; [reflexivity |].
  cbn [entities]. rewrite replaceAll_app, IH. f_equal.
  unfold entity.
  destruct (Ascii.eqb_spec x "&") as [-> | N1]; [reflexivity |].
  destruct (Ascii.eqb_spec x "<") as [-> | N2]; [reflexivity |].
  destruct (Ascii.eqb_spec x ">") as [-> | N3]; [reflexivity |].
  cbn [andb Js.replaceAll].
  destruct (Ascii.eqb x "034"); reflexivity.
Qed.

Lemma occurs_app (c : ascii) (s1 s2 : string) :
  occurs c (s1 ++ s2) <-> occurs c s1 \/ occurs c s2.
Proof.
  unfold occurs. induction s1 as [| x rest IH]; simpl.
  - tauto.
  - rewrite IH. tauto.
Qed.

(** An entity has none of the characters that open or close markup. *)
Lemma entity_clean (quoted : bool) (x c : ascii) :
  occurs c (entity quoted x) ->
  c <> "<"%char /\ c <> ">"%char /\ (quoted = true -> c <> "034"%char).
Proof.
  unfold entity, occurs.
  destruct (Ascii.eqb_spec x "&") as [-> | N1];
    [simpl; intuition (subst; discriminate) |].
  destruct (Ascii.eqb_spec x "<") as [-> | N2];
    [simpl; intuition (subst; discriminate) |].
  destruct (Ascii.eqb_spec x ">") as [-> | N3];
    [simpl; intuition (subst; discriminate) |].
  destruct quoted; cbn [andb].
  - destruct (Ascii.eqb_spec x "034") as [-> | N4];
      [simpl; intuition (subst; discriminate) |].
    simpl. intros [<- | []]. auto.
  - simpl. intros [<- | []]. repeat split; auto. discriminate.
Qed.

Lemma entities_clean (quoted : bool) (s : string) (c : ascii) :
  occurs c (entities quoted s) ->
  c <> "<"%char /\ c <> ">"%char /\ (quoted = true -> c <> "034"%char).
Proof.
  induction s as [| x rest IH]; [intros [] |].
  cbn [entities]. rewrite occurs_app.
  intros [H | H]; [apply (entity_clean quoted x c H) | auto].
Qed.

(** A character is written as one of four entities or as itself, and
    then it is no ampersand. *)
Lemma entity_cases (quoted : bool) (z : ascii) :
  (z = "&"%char /\ entity quoted z = "&amp;"%string) \/
  (z = "<"%char /\ entity quoted z = "&lt;"%string) \/
  (z = ">"%char /\ entity quoted z = "&gt;"%string) \/
  (z = "034"%char /\ entity quoted z = "&quot;"%string) \/
  (z <> "&"%char /\ entity quoted z = String z EmptyString).
Proof.
  unfold entity.
  destruct (Ascii.eqb_spec z "&") as [-> | N1]; [now left |].
  destruct (Ascii.eqb_spec z "<") as [-> | N2]; [now right; left |].
  destruct (Ascii.eqb_spec z ">") as [-> | N3]; [now right; right; left |].
  destruct quoted; cbn [andb]; [| now right; right; right; right].
  destruct (Ascii.eqb_spec z "034") as [-> | N4];
    [now right; right; right; left | now right; right; right; right].
Qed.

(** Two characters with one entity are one character, and then what
    follows the entity is the same. *)
Lemma entity_prefix (quoted : bool) (x y : ascii) (r r' : string) :
  (entity quoted x ++ entities quoted r)%string
  = (entity quoted y ++ entities quoted r')%string ->
  x = y /\ entities quoted r = entities quoted r'.
Proof.
  destruct (entity_cases quoted x)
    as [[-> ->] | [[-> ->] | [[-> ->] | [[-> ->] | [Nx ->]]]]];
  destruct (entity_cases quoted y)
    as [[-> ->] | [[-> ->] | [[-> ->] | [[-> ->] | [Ny ->]]]]];
  cbn [String.append]; intros E;
  try discriminate E;
  injection E; intros; subst; auto; congruence.
Qed.

Lemma entities_injective (quoted : bool) (s1 s2 : string) :
  entities quoted s1 = entities quoted s2 -> s1 = s2.
Proof.
  revert s2; induction s1 as [| x r IH]; intros [| y r'].
  - reflexivity.
  - cbn [entities]. intros E. exfalso.
    unfold entity in E.
    destruct (Ascii.eqb y "&"); [discriminate E |].
    destruct (Ascii.eqb y "<"); [discriminate E |].
    destruct (Ascii.eqb y ">"); [discriminate E |].
    destruct (quoted && Ascii.eqb y "034"); discriminate E.
  - cbn [entities]. intros E. exfalso.
    unfold entity in E.
    destruct (Ascii.eqb x "&"); [discriminate E |].
    destruct (Ascii.eqb x "<"); [discriminate E |].
    destruct (Ascii.eqb x ">"); [discriminate E |].
    destruct (quoted && Ascii.eqb x "034"); discriminate E.
  - cbn [entities]. intros E.
    destruct (entity_prefix quoted x y r r' E) as [-> Er].
    f_equal. apply IH, Er.
Qed.

End Escape.

Section EscapeThree.

Lemma escape_three (s : string) :
  DeprivationLayer._escape (Some s) = entities false s /\
  CombinedScoreLayer._escape (Some s) = entities false s.
Proof.
  unfold DeprivationLayer._escape, CombinedScoreLayer._escape, Js.truthy.
  destruct s as [| x r]; [split; reflexivity |].
  cbn [String.eqb negb]. split; apply three_passes.
Qed.

Lemma quote_kept (s : string) :
  occurs "034" (entities false s) <-> occurs "034" s.
Proof.
  induction s as [| x r IH]; [reflexivity |].
  cbn [entities]. rewrite occurs_app, IH.
  unfold occurs at 3; cbn [list_ascii_of_string In]. fold (occurs "034" r).
  destruct (entity_cases false x)
    as [[-> ->] | [[-> ->] | [[-> ->] | [[-> E] | [Nx ->]]]]].
  1-3: unfold occurs; simpl;
    (split; intros [H | H]; [| now right | discriminate H | now right]);
    repeat (destruct H as [H | H]; [discriminate H |]); destruct H.
  - discriminate E.
  - unfold occurs; simpl. tauto.
Qed.

End EscapeThree.

(** X5. The popup escape of the air-quality layer leaves no [<], no [>] and
    no double quote in its output, and loses nothing: two strings with one
    output are one string. *)
Theorem escape_quoted_safe (s : string) :
  (forall c, occurs c (AirQualityLayer._escape s) ->
             c <> "<"%char /\ c <> ">"%char /\ c <> "034"%char) /\
  (forall s', AirQualityLayer._escape s = AirQualityLayer._escape s' ->
              s = s').
Proof.
  split.
  - intros c. rewrite four_passes. intros H.
    destruct (entities_clean true s c H) as (H1 & H2 & H3). auto.
  - intros s'. rewrite !four_passes. apply entities_injective.
Qed.

Lemma escape_quoted_safe_witness :
  ("&"%char <> "<"%char /\ "&"%char <> ">"%char /\ "&"%char <> "034"%char) /\
  "Kew <b>Road</b>"%string = "Kew <b>Road</b>"%string.
Proof.
  pose proof (escape_quoted_safe "Kew <b>Road</b>") as [Hc Hi].
  split.
  - apply Hc. unfold occurs; simpl. do 4 right; left; reflexivity.
  - apply Hi. reflexivity.
Defined.

(** X6. The popup escape of the deprivation and combined layers turns
    [undefined] and the empty string into the empty string, leaves no [<]
    and no [>] in its output, loses nothing of a string, and leaves a
    double quote where it was. *)
Theorem escape_plain_safe (s : string) :
  DeprivationLayer._escape None = EmptyString /\
  DeprivationLayer._escape (Some EmptyString) = EmptyString /\
  CombinedScoreLayer._escape (Some s) = DeprivationLayer._escape (Some s) /\
  (forall c, occurs c (DeprivationLayer._escape (Some s)) ->
             c <> "<"%char /\ c <> ">"%char) /\
  (forall s', DeprivationLayer._escape (Some s)
              = DeprivationLayer._escape (Some s') -> s = s') /\
  (occurs "034" (DeprivationLayer._escape (Some s)) <-> occurs "034" s).
Proof.
  destruct (escape_three s) as [Ed Ec].
  split; [reflexivity |]. split; [reflexivity |].
  split; [now rewrite Ed, Ec |].
  split; [| split].
  - intros c. rewrite Ed. intros H.
    destruct (entities_clean false s c H) as (H1 & H2 & _). auto.
  - intros s'. rewrite Ed, (proj1 (escape_three s')).
    apply entities_injective.
  - rewrite Ed. apply quote_kept.
Qed.

Lemma escape_plain_safe_witness :
  ("&"%char <> "<"%char /\ "&"%char <> ">"%char) /\
  "Putney <East>"%string = "Putney <East>"%string.
Proof.
  pose proof (escape_plain_safe "Putney <East>") as (_ & _ & _ & Hc & Hi & _).
  split.
  - apply Hc. unfold occurs; simpl. do 7 right; left; reflexivity.
  - apply Hi. reflexivity.
Defined.

Example escape_sample :
  AirQualityLayer._escape "R&D <b>" = "R&amp;D &lt;b&gt;"%string.
Proof. reflexivity. Qed.

(** ** More on the great-circle distance *)

Section HaversineRange.








End HaversineRange.



(** ** More on the combined score *)



(** ** More on the nearest station *)

Section NearestAppend.

Variables plat plng : R.

#[local] Abbreviation dist := (distanceTo plat plng).

(** Running the loop over two lists is running it over the second from
    where the first ended. *)
Lemma nearestLoop_app (l1 l2 : stations) (b0 b1 : station) :
  nearestLoop plat plng l1 (Some b0) (Finite (dist b0)) = Some b1 ->
  nearestLoop plat plng (l1 ++ l2) (Some b0) (Finite (dist b0))
  = nearestLoop plat plng l2 (Some b1) (Finite (dist b1)).
Proof.
  revert b0; induction l1 as [| [code s] rest IH]; intros b0.
  - simpl. intros E; injection E as <-. reflexivity.
  - cbn [nearestLoop below app].
    fold (distanceTo plat plng s).
    destruct (Rlt_dec (dist s) (dist b0)); apply IH.
Qed.

End NearestAppend.

(** X10. A station added at the end of the mapping becomes the nearest
    only when it is strictly closer than the nearest so far; at the same
    distance the earlier one stays. *)
Theorem nearest_station_append (plat plng : R) (sts : stations)
        (code : string) (s best : station) :
  _nearestStation plat plng sts = Some best ->
  _nearestStation plat plng (sts ++ [(code, s)]) =
  if Rlt_dec (distanceTo plat plng s) (distanceTo plat plng best)
  then Some s else Some best.
Proof.
  destruct sts as [| [c0 s0] rest]; [intros E; discriminate E |].
  unfold _nearestStation. cbn [nearestLoop below app].
  fold (distanceTo plat plng s0). intros E.
  rewrite (nearestLoop_app plat plng rest [(code, s)] s0 best E).
  cbn [nearestLoop below]. fold (distanceTo plat plng s).
  destruct (Rlt_dec _ _); reflexivity.
Qed.

Lemma nearest_station_append_witness :
  _nearestStation 51.46 (-0.22)
    ([("WA7"%string, siteA (Some 3))] ++ [("WA8"%string, siteB)])%list
  = if Rlt_dec (distanceTo 51.46 (-0.22) siteB)
               (distanceTo 51.46 (-0.22) (siteA (Some 3)))
    then Some siteB else Some (siteA (Some 3)).
Proof.
  apply (nearest_station_append 51.46 (-0.22) [("WA7", siteA (Some 3))]%string
           "WA8"%string siteB (siteA (Some 3))).
  reflexivity.
Defined.

(** ** More on the centroid *)

Section CentroidBox.








End CentroidBox.



(** ** The gradient at its stops *)

Section AtStops.

Lemma strictly_ascending_far (stops : list stop) :
  strictlyAscending stops ->
  forall k i lo hi,
    (i < k)%nat ->
    nth_error stops i = Some lo -> nth_error stops k = Some hi ->
    t lo < t hi.
Proof.
  intros Hs. induction k as [| k IH]; intros i lo hi Hik Hi Hk; [lia |].
  destruct (Nat.eq_dec i k) as [-> | Hne].
  - apply (Hs k lo hi Hi Hk).
  - assert (Hlt : (k < List.length stops)%nat).
    { apply Nat.lt_succ_l. apply nth_error_Some. congruence. }
    destruct (nth_error stops k) as [mid |] eqn:Emid;
      [| apply nth_error_None in Emid; lia].
    apply Rlt_trans with (t mid).
    + apply (IH i lo mid); [lia | exact Hi | reflexivity].
    + apply (Hs k mid hi Emid Hk).
Qed.

Lemma round_whole (z : Z) : Math.round (IZR z) = z.
Proof. apply round_value. lra. Qed.

Lemma interpolated_at_lo (lo hi : stop) (c : rgb) :
  interpolated lo hi (t lo) c -> c = colourOf lo.
Proof.
  unfold interpolated, colourOf. intros (Hr & Hg & Hb).
  replace ((t lo - t lo) / span lo hi) with 0 in Hr, Hg, Hb
    by (unfold Rdiv; lra).
  rewrite Rmult_0_r, Rplus_0_r, round_whole in Hr, Hg, Hb.
  destruct c; simpl in *; congruence.
Qed.

Lemma interpolated_at_hi (lo hi : stop) (c : rgb) :
  t lo < t hi -> interpolated lo hi (t hi) c -> c = colourOf hi.
Proof.
  unfold interpolated, colourOf. intros Hlt (Hr & Hg & Hb).
  rewrite span_wide in Hr, Hg, Hb by lra.
  replace ((t hi - t lo) / (t hi - t lo)) with 1 in Hr, Hg, Hb
    by (field; lra).
  replace (IZR (r lo) + (IZR (r hi) - IZR (r lo)) * 1) with (IZR (r hi))
    in Hr by lra.
  replace (IZR (g lo) + (IZR (g hi) - IZR (g lo)) * 1) with (IZR (g hi))
    in Hg by lra.
  replace (IZR (b lo) + (IZR (b hi) - IZR (b lo)) * 1) with (IZR (b hi))
    in Hb by lra.
  rewrite round_whole in Hr, Hg, Hb.
  destruct c; simpl in *; congruence.
Qed.

Lemma stop_in_unit (stops : list stop) (i : nat) (st : stop) :
  validStops stops -> strictlyAscending stops ->
  nth_error stops i = Some st -> 0 <= t st <= 1.
Proof.
  intros (Hlen & _ & Hfirst & Hlast) Hs Hi.
  destruct (nth_error stops 0) as [first |] eqn:Ef; [| discriminate].
  destruct (nth_error stops (List.length stops - 1)) as [last |] eqn:El;
    [| discriminate].
  simpl in Hfirst, Hlast.
  assert (T0 : t first = 0) by congruence.
  assert (T1 : t last = 1) by congruence.
  assert (Hi' : (i < List.length stops)%nat)
    by (apply nth_error_Some; congruence).
  split.
  - destruct (Nat.eq_dec i 0) as [-> | Hne]; [rewrite Ef in Hi; injection Hi as <-; lra |].
    pose proof (strictly_ascending_far stops Hs i 0%nat first st) as H.
    rewrite <- T0. left. apply H; [lia | exact Ef | exact Hi].
  - destruct (Nat.eq_dec i (List.length stops - 1)) as [-> | Hne];
      [rewrite El in Hi; injection Hi as <-; lra |].
    pose proof (strictly_ascending_far stops Hs (List.length stops - 1) i st last) as H.
    rewrite <- T1. left. apply H; [lia | exact Hi | exact El].
Qed.

End AtStops.

(** X12. On a valid stop list with strictly ascending positions, the colour
    at the position of a stop is that stop's colour, exactly. *)
Theorem colour_at_stop (stops : list stop) (i : nat) (st : stop) :
  validStops stops -> strictlyAscending stops ->
  nth_error stops i = Some st ->
  scoreChannels stops (t st) = Ok (colourOf st).
Proof.
  intros Hv Hs Hi.
  pose proof (stop_in_unit stops i st Hv Hs Hi) as Hunit.
  destruct (channels_bracketed stops (t st) Hv)
    as (j & lo & hi & c & Hj & Hsj & Hb & Hc & Hint & _).
  rewrite (clamp_inside (t st) Hunit) in Hb, Hint.
  rewrite Hc. f_equal.
  pose proof (Hs j lo hi Hj Hsj) as Hlohi.
  destruct (Nat.lt_trichotomy i j) as [Hlt | [-> | Hgt]].
  - pose proof (strictly_ascending_far stops Hs j i st lo Hlt Hi Hj). lra.
  - rewrite Hi in Hj; injection Hj as <-.
    apply (interpolated_at_lo st hi c Hint).
  - destruct (Nat.eq_dec i (S j)) as [-> | Hne].
    + rewrite Hi in Hsj; injection Hsj as <-.
      apply (interpolated_at_hi lo st c Hlohi Hint).
    + assert (Hlt : (S j < i)%nat) by lia.
      pose proof (strictly_ascending_far stops Hs i (S j) hi st Hlt Hsj Hi). lra.
Qed.

Lemma COLOR_STOPS_strict : strictlyAscending COLOR_STOPS.
Proof.
  intros [| [| [| [| [| i]]]]] lo hi H1 H2; simpl in H1, H2;
    try discriminate;
    try (injection H1 as <-; injection H2 as <-; simpl; lra).
  all: try (destruct i; discriminate).
Qed.

Lemma colour_at_stop_witness :
  scoreChannels COLOR_STOPS (t (mkStop 0.75 220 90 30))
  = Ok (colourOf (mkStop 0.75 220 90 30)).
Proof.
  apply (colour_at_stop COLOR_STOPS 3 (mkStop 0.75 220 90 30)
           COLOR_STOPS_valid COLOR_STOPS_strict).
  reflexivity.
Defined.

(** ** Legend panels *)

Section LegendPanels.

Import Legend.

Lemma panelId_injective (k k' : string) : _panelId k = _panelId k' -> k = k'.
Proof.
  unfold _panelId. cbn [String.append]. intros E.
  repeat (injection E as E). exact E.
Qed.

Lemma idOf_panel (key : string) (cfg : config) :
  idOf (panel key cfg) = _panelId key.
Proof. reflexivity. Qed.

(** Where no element has the id, nothing is removed. *)
Lemma removeFirst_absent (id : string) (c : list node) :
  ~ In id (map idOf c) -> removeFirst id c = c.
Proof.
  induction c as [| n rest IH]; [reflexivity |].
  cbn [map In removeFirst]. intros H.
  destruct (String.eqb_spec (idOf n) id) as [E | N]; [tauto |].
  f_equal. apply IH. tauto.
Qed.

(** Where ids are not repeated, removing the first is removing all. *)
Lemma removeFirst_filter (id : string) (c : list node) :
  NoDup (map idOf c) ->
  removeFirst id c = filter (fun n => negb (String.eqb (idOf n) id)) c.
Proof.
  induction c as [| n rest IH]; [reflexivity |].
  cbn [map removeFirst filter]. intros H. inversion H as [| x xs Hnot Hrest]; subst.
  destruct (String.eqb_spec (idOf n) id) as [E | N]; cbn [negb].
  - subst id. rewrite <- IH by exact Hrest.
    symmetry. apply removeFirst_absent, Hnot.
  - f_equal. apply IH, Hrest.
Qed.

Lemma ids_filter (id : string) (c : list node) :
  map idOf (filter (fun n => negb (String.eqb (idOf n) id)) c)
  = filter (fun x => negb (String.eqb x id)) (map idOf c).
Proof.
  induction c as [| n rest IH]; [reflexivity |].
  cbn [filter map]. destruct (negb (String.eqb (idOf n) id));
    cbn [map]; now rewrite IH.
Qed.

Lemma removeFirst_ids (id : string) (c : list node) :
  NoDup (map idOf c) ->
  map idOf (removeFirst id c)
  = filter (fun x => negb (String.eqb x id)) (map idOf c).
Proof.
  intros H. rewrite (removeFirst_filter id c H). apply ids_filter.
Qed.

(** Panel ids stay unrepeated under [render] and [remove]. *)
Lemma remove_NoDup (key : string) (c : list node) :
  NoDup (map idOf c) -> NoDup (map idOf (remove key c)).
Proof.
  intros H. unfold remove. rewrite (removeFirst_ids _ c H).
  now apply NoDup_filter.
Qed.

Lemma remove_absent (key : string) (c : list node) :
  NoDup (map idOf c) -> ~ In (_panelId key) (map idOf (remove key c)).
Proof.
  intros H. unfold remove. rewrite (removeFirst_ids _ c H).
  intros Hin. apply filter_In in Hin as [_ Hin].
  rewrite String.eqb_refl in Hin. discriminate Hin.
Qed.

Lemma NoDup_snoc {A : Type} (xs : list A) (a : A) :
  NoDup xs -> ~ In a xs -> NoDup (xs ++ [a]).
Proof.
  induction 1 as [| x rest Hx _ IH]; intros Ha; simpl.
  - constructor; [intros [] | constructor].
  - constructor.
    + rewrite in_app_iff. simpl in *. intuition congruence.
    + apply IH. simpl in Ha. tauto.
Qed.

Lemma render_ids (key : string) (cfg : config) (c : list node) :
  map idOf (render key cfg c) = map idOf (remove key c) ++ [_panelId key].
Proof. unfold render. rewrite map_app. reflexivity. Qed.

Lemma render_NoDup (key : string) (cfg : config) (c : list node) :
  NoDup (map idOf c) -> NoDup (map idOf (render key cfg c)).
Proof.
  intros H. rewrite render_ids.
  apply NoDup_snoc; [now apply remove_NoDup | now apply remove_absent].
Qed.

Lemma removeFirst_app_absent (id : string) (c l : list node) :
  ~ In id (map idOf c) ->
  removeFirst id (c ++ l) = c ++ removeFirst id l.
Proof.
  induction c as [| n rest IH]; [reflexivity |].
  cbn [map In app removeFirst]. intros H.
  destruct (String.eqb_spec (idOf n) id) as [E | N]; [tauto |].
  f_equal. apply IH. tauto.
Qed.

Lemma remove_rendered (key : string) (cfg : config) (c : list node) :
  ~ In (_panelId key) (map idOf c) ->
  remove key (c ++ [panel key cfg]) = c.
Proof.
  intros H. unfold remove. rewrite (removeFirst_app_absent _ c _ H).
  cbn [removeFirst]. rewrite idOf_panel, String.eqb_refl.
  apply app_nil_r.
Qed.

End LegendPanels.

(** X13. In a container whose panels have different ids, [render] leaves
    every panel of another key where it was, puts the one panel of its key
    last, and the ids are different still: a key is in the legend after
    [render] exactly when it was rendered or was there before. *)
Theorem legend_one_panel_per_key (key : string) (cfg : Legend.config)
        (c : list Legend.node) :
  NoDup (map Legend.idOf c) ->
  Legend.render key cfg c
  = filter (fun n => negb (String.eqb (Legend.idOf n) (Legend._panelId key))) c
    ++ [Legend.panel key cfg] /\
  NoDup (map Legend.idOf (Legend.render key cfg c)) /\
  (forall key',
      In (Legend._panelId key') (map Legend.idOf (Legend.render key cfg c))
      <-> key' = key \/ In (Legend._panelId key') (map Legend.idOf c)).
Proof.
  intros H. split; [| split].
  - unfold Legend.render, Legend.remove.
    now rewrite (removeFirst_filter _ c H).
  - now apply render_NoDup.
  - intros key'. rewrite render_ids. unfold Legend.remove.
    rewrite (removeFirst_ids _ c H), in_app_iff, filter_In.
    cbn [In]. split.
    + intros [[Hin _] | [E | []]]; [now right | left].
      symmetry. now apply panelId_injective.
    + intros [-> | Hin]; [right; now left |].
      destruct (String.eqb_spec (Legend._panelId key') (Legend._panelId key))
        as [E | N].
      * right; left. now symmetry.
      * left. split; [exact Hin | reflexivity].
Qed.

Lemma legend_one_panel_per_key_witness :
  Legend.render "air" FloodRiskLayer.LEGEND_RS
    [Legend.panel "noise" FloodRiskLayer.LEGEND_SW;
     Legend.panel "air" FloodRiskLayer.LEGEND_SW]
  = [Legend.panel "noise" FloodRiskLayer.LEGEND_SW;
     Legend.panel "air" FloodRiskLayer.LEGEND_RS].
Proof.
  pose proof (legend_one_panel_per_key "air" FloodRiskLayer.LEGEND_RS
                [Legend.panel "noise" FloodRiskLayer.LEGEND_SW;
                 Legend.panel "air" FloodRiskLayer.LEGEND_SW]) as H.
  destruct H as [E _].
  - repeat constructor; simpl; intuition discriminate.
  - exact E.
Defined.

(** X14. [remove] undoes [render] in a container that had no panel of the
    key; rendering a key again replaces its panel; and removing a key that
    is not there changes nothing. *)
Theorem legend_round_trip (key : string) (cfg cfg' : Legend.config)
        (c : list Legend.node) :
  (~ In (Legend._panelId key) (map Legend.idOf c) ->
   Legend.remove key (Legend.render key cfg c) = c /\
   Legend.remove key c = c) /\
  (NoDup (map Legend.idOf c) ->
   Legend.render key cfg' (Legend.render key cfg c)
   = Legend.render key cfg' c).
Proof.
  split.
  - intros Habs.
    assert (E : Legend.remove key c = c)
      by (apply removeFirst_absent, Habs).
    split; [| exact E].
    unfold Legend.render. rewrite E. now apply remove_rendered.
  - intros H. unfold Legend.render at 1 3.
    f_equal. unfold Legend.render.
    apply remove_rendered. now apply remove_absent.
Qed.

Lemma legend_round_trip_witness :
  Legend.remove "air"
    (Legend.render "air" FloodRiskLayer.LEGEND_RS
       [Legend.panel "noise" FloodRiskLayer.LEGEND_SW])
  = [Legend.panel "noise" FloodRiskLayer.LEGEND_SW].
Proof.
  apply (proj1 (legend_round_trip "air" FloodRiskLayer.LEGEND_RS
                  FloodRiskLayer.LEGEND_RS
                  [Legend.panel "noise" FloodRiskLayer.LEGEND_SW])).
  simpl. intuition discriminate.
Defined.

(** ** The data kept for the combined score *)

Section InitData.

Import DeprivationInit.

(** What [toData] gives when nothing throws: one entry per feature, in
    order, with the centroid of the feature's geometry. *)
Lemma toData_Ok (fs : list geoFeature) (ds : list datum) :
  toData fs = Ok ds ->
  Forall2 (fun f d =>
             exists g c,
               geometry f = Some g /\
               DeprivationLayer._centroid g = Ok c /\
               d = mkDatum (mkLsoa (lsoa_code f) (lsoa_name f) (borough f)
                                   (imd_decile f) c)
                           (imd_score f) (Some g)) fs ds.
Proof.
  revert ds; induction fs as [| f rest IH]; intros ds.
  - simpl. intros E; injection E as <-. constructor.
  - cbn [toData]. unfold centroidOf.
    destruct (geometry f) as [g |] eqn:Eg; [| discriminate].
    destruct (DeprivationLayer._centroid g) as [c |] eqn:Ec; [| discriminate].
    cbn [bind].
    destruct (toData rest) as [ds' |]; [| discriminate].
    cbn [bind]. intros E; injection E as <-.
    constructor; [| now apply IH].
    exists g, c. rewrite Eg. auto.
Qed.

Lemma toData_throws (fs : list geoFeature) (f : geoFeature) :
  In f fs -> centroidOf (geometry f) = TypeError -> toData fs = TypeError.
Proof.
  induction fs as [| x rest IH]; [intros [] |].
  intros [-> | Hin] Hthrow; cbn [toData].
  - rewrite Hthrow. reflexivity.
  - destruct (centroidOf (geometry x)); [| reflexivity].
    cbn [bind]. rewrite (IH Hin Hthrow). reflexivity.
Qed.

Lemma toData_total (fs : list geoFeature) :
  (forall f, In f fs -> centroidOf (geometry f) <> TypeError) ->
  exists ds, toData fs = Ok ds.
Proof.
  induction fs as [| x rest IH]; intros H.
  - eexists; reflexivity.
  - cbn [toData].
    destruct (centroidOf (geometry x)) as [c |] eqn:Ec;
      [| exfalso; apply (H x); [now left | exact Ec]].
    destruct IH as [ds Eds]; [intros f Hf; apply H; now right |].
    rewrite Eds. eexists; reflexivity.
Qed.

Lemma Forall2_In_r {A B : Type} (P : A -> B -> Prop) (xs : list A)
      (ys : list B) (y : B) :
  Forall2 P xs ys -> In y ys -> exists x, In x xs /\ P x y.
Proof.
  induction 1 as [| x0 y0 xs' ys' Hp _ IH]; [intros [] |].
  intros [<- | Hin].
  - exists x0; split; [now left | exact Hp].
  - destruct (IH Hin) as (x & Hx & Hpx). exists x; split; [now right | exact Hpx].
Qed.

End InitData.

(** X15. Every entry of the data kept by [init] comes from a feature that
    has a decile and a geometry, and carries the centroid of that geometry.
    So the combined score never takes the neutral deprivation value for it:
    its deprivation component is (11 - decile)/10. *)
Theorem data_entries_complete (fs : list DeprivationInit.geoFeature)
        (d : DeprivationInit.datum) :
  In d (DeprivationInit._data fs) ->
  exists f decile g,
    In f fs /\
    DeprivationInit.imd_decile f = Some decile /\
    imd_decile (DeprivationInit.entry d) = Some decile /\
    DeprivationInit.shape d = Some g /\
    DeprivationLayer._centroid g = Ok (centroid (DeprivationInit.entry d)) /\
    forall sts,
      depComp (computeScore sts (DeprivationInit.entry d))
      = (11 - decile) / 10.
Proof.
  unfold DeprivationInit._data.
  destruct (DeprivationInit.toData (filter DeprivationInit.hasDecile fs))
    as [ds |] eqn:E; [| intros []].
  intros Hin.
  destruct (Forall2_In_r _ _ _ d (toData_Ok _ _ E) Hin)
    as (f & Hf & g & c & Eg & Ec & ->).
  apply filter_In in Hf as [Hf Hdec].
  unfold DeprivationInit.hasDecile in Hdec.
  destruct (DeprivationInit.imd_decile f) as [decile |] eqn:Ed;
    [| discriminate].
  exists f, decile, g. cbn.
  repeat split; auto.
Qed.

(** X16. The data is all or nothing: one feature with a decile whose
    geometry is [null], or a polygon without rings, empties the whole data;
    when no such feature has one, the data has an entry for each feature
    with a decile, in order. A feature without decile is never looked at. *)
Theorem data_all_or_nothing (fs : list DeprivationInit.geoFeature) :
  ((exists f, In f fs /\ DeprivationInit.hasDecile f = true /\
              DeprivationInit.centroidOf (DeprivationInit.geometry f)
              = TypeError) ->
   DeprivationInit._data fs = []) /\
  ((forall f, In f fs -> DeprivationInit.hasDecile f = true ->
              DeprivationInit.centroidOf (DeprivationInit.geometry f)
              <> TypeError) ->
   map (fun d => lsoa_code (DeprivationInit.entry d))
       (DeprivationInit._data fs)
   = map DeprivationInit.lsoa_code (filter DeprivationInit.hasDecile fs)).
Proof.
  unfold DeprivationInit._data. split.
  - intros (f & Hf & Hdec & Hthrow).
    rewrite (toData_throws (filter DeprivationInit.hasDecile fs) f);
      [reflexivity | | exact Hthrow].
    apply filter_In. auto.
  - intros Hok.
    destruct (toData_total (filter DeprivationInit.hasDecile fs)) as [ds E].
    { intros f Hf. apply filter_In in Hf as [Hf Hdec]. now apply Hok. }
    rewrite E. pose proof (toData_Ok _ _ E) as H2. clear E.
    induction H2 as [| f d fs' ds' (g & c & _ & _ & ->) _ IH];
      [reflexivity |].
    cbn [map]. f_equal. exact IH.
Qed.

Lemma data_all_or_nothing_witness :
  DeprivationInit._data
    [ DeprivationInit.mkGeoFeature "E01" "A" "Wandsworth" (Some 3) None
        (Some square);
      DeprivationInit.mkGeoFeature "E02" "B" "Wandsworth" (Some 5) None
        None ] = [].
Proof.
  apply (proj1 (data_all_or_nothing _)).
  eexists. split; [right; left; reflexivity |]. split; reflexivity.
Defined.

Lemma data_entries_complete_witness :
  exists f decile g,
    In f [ DeprivationInit.mkGeoFeature "E00" "Z" "Hounslow" None None None;
           DeprivationInit.mkGeoFeature "E03" "C" "Hounslow" (Some 3) None
             (Some (OtherGeometry "Point")) ] /\
    DeprivationInit.imd_decile f = Some decile /\
    Some 3 = Some decile /\
    Some (OtherGeometry "Point") = Some g /\
    DeprivationLayer._centroid g = Ok None /\
    forall sts,
      depComp (computeScore sts (mkLsoa "E03" "C" "Hounslow" (Some 3) None))
      = (11 - decile) / 10.
Proof.
  apply (data_entries_complete
           [ DeprivationInit.mkGeoFeature "E00" "Z" "Hounslow" None None None;
             DeprivationInit.mkGeoFeature "E03" "C" "Hounslow" (Some 3) None
               (Some (OtherGeometry "Point")) ]
           (DeprivationInit.mkDatum
              (mkLsoa "E03" "C" "Hounslow" (Some 3) None) None
              (Some (OtherGeometry "Point")))).
  left. reflexivity.
Defined.

(** ** The flood layer on the page *)

Section Flood.

Import FloodRiskLayer.

Variable pg0 : L.page.
Hypothesis Hfree : floodFree pg0.

Lemma others_keep (x : L.layer) :
  (L.nextStamp pg0 <= L.stamp x)%nat ->
  filter (fun y => negb (Nat.eqb (L.stamp y) (L.stamp x))) (L.onMap pg0)
  = L.onMap pg0 /\
  existsb (fun y => Nat.eqb (L.stamp y) (L.stamp x)) (L.onMap pg0) = false.
Proof.
  intros Hx. destruct Hfree as [Hst _].
  induction Hst as [| y rest Hy _ IH]; [split; reflexivity |].
  destruct IH as [IH1 IH2].
  assert (E : Nat.eqb (L.stamp y) (L.stamp x) = false)
    by (apply Nat.eqb_neq; lia).
  cbn [filter existsb]. rewrite E, IH1, IH2. split; reflexivity.
Qed.

(** Taking a layer off: what is left of the module's own layers. *)
Lemma removeIfOn_onMap (o : option L.layer) (pg : L.page) (F : list L.layer) :
  (forall x, o = Some x -> (L.nextStamp pg0 <= L.stamp x)%nat) ->
  L.onMap pg = L.onMap pg0 ++ F ->
  L.onMap (removeIfOn o pg)
  = L.onMap pg0
    ++ match o with
       | Some x => filter (fun y => negb (Nat.eqb (L.stamp y) (L.stamp x))) F
       | None => F
       end /\
  L.legend (removeIfOn o pg) = L.legend pg /\
  L.nextStamp (removeIfOn o pg) = L.nextStamp pg.
Proof.
  intros Ho Hm. destruct o as [x |]; [| auto].
  destruct (others_keep x (Ho x eq_refl)) as [Hk He].
  unfold removeIfOn, L.hasLayer. rewrite Hm, existsb_app, He. cbn [orb].
  destruct (existsb _ F) eqn:EF.
  - cbn [L.removeLayer L.onMap L.legend L.nextStamp].
    rewrite Hm, filter_app, Hk. auto.
  - rewrite Hm. repeat split. f_equal.
    clear Hm. induction F as [| y rest IH]; [reflexivity |].
    cbn [existsb] in EF. apply orb_false_iff in EF as [E1 E2].
    cbn [filter]. rewrite E1. cbn [negb]. f_equal. now apply IH.
Qed.

(** Both overlays taken off, as [_applyMode] and [hide] begin. *)
Lemma overlays_cleared (mr ms lr ls : bool) (st : state) (pg : L.page) :
  showing pg0 mr ms lr ls st pg ->
  showing pg0 false false lr ls st
          (removeIfOn (_swLayer st) (removeIfOn (_rsLayer st) pg)).
Proof.
  intros (Hm & Hl & Hn & Hrs & Hsw & Hd & Ha & Hb).
  destruct (removeIfOn_onMap (_rsLayer st) pg _
              (fun x E => proj1 (proj2 (proj2 (Hrs x E)))) Hm)
    as (Hm1 & Hl1 & Hn1).
  destruct (removeIfOn_onMap (_swLayer st) _ _
              (fun x E => proj1 (proj2 (proj2 (Hsw x E)))) Hm1)
    as (Hm2 & Hl2 & Hn2).
  unfold showing, madeSince in *. rewrite Hm2, Hl2, Hl1, Hn2, Hn1.
  split; [| repeat split; auto; try (intros E; discriminate E);
            try (now apply Hrs); try (now apply Hsw)].
  f_equal. cbn [app].
  destruct (_rsLayer st) as [x |] eqn:Ex; destruct (_swLayer st) as [y |] eqn:Ey;
    destruct mr; destruct ms; cbn [layerList app filter];
    rewrite ?Nat.eqb_refl; cbn [negb filter];
    try reflexivity;
    try (exfalso; apply Ha; reflexivity);
    try (exfalso; apply Hb; reflexivity).
  all: assert (Exy : Nat.eqb (L.stamp y) (L.stamp x) = false)
         by (apply Nat.eqb_neq; intros E; apply (Hd x y eq_refl eq_refl);
             now symmetry).
  all: rewrite Exy; cbn [negb filter]; rewrite ?Nat.eqb_refl; reflexivity.
Qed.

Lemma legend_removeFirst_own (key : string) (P : list Legend.node) :
  (key = "flood-rs" \/ key = "flood-sw")%string ->
  Legend.remove key (L.legend pg0 ++ P)
  = L.legend pg0 ++ Legend.remove key P.
Proof.
  intros Hk. unfold Legend.remove. apply removeFirst_app_absent.
  destruct Hfree as (_ & Hr & Hs). destruct Hk as [-> | ->]; assumption.
Qed.

(** Both panels taken off. *)
Lemma panels_cleared (mr ms lr ls : bool) (st : state) (pg : L.page) :
  showing pg0 mr ms lr ls st pg ->
  showing pg0 mr ms false false st
          (L.legendRemove "flood-sw" (L.legendRemove "flood-rs" pg)).
Proof.
  intros (Hm & Hl & Hrest).
  unfold showing, madeSince in *.
  cbn [L.legendRemove L.onMap L.legend L.nextStamp].
  split; [exact Hm |]. split; [| exact Hrest].
  rewrite Hl, !legend_removeFirst_own by auto.
  f_equal. destruct lr; destruct ls; reflexivity.
Qed.

(** A fresh rivers-and-sea overlay with its panel, on a page that shows
    nothing of the module. *)
Lemma rs_added (st : state) (pg : L.page) :
  showing pg0 false false false false st pg ->
  showing pg0 true false true false
    (mkState (_map st) (Some (fst (_makeRS pg))) (_swLayer st)
             (_visible st) (_mode st))
    (L.legendRender "flood-rs" LEGEND_RS
       (L.addTo (fst (_makeRS pg)) (snd (_makeRS pg)))).
Proof.
  intros (Hm & Hl & Hn & Hrs & Hsw & Hd & _ & _).
  cbn [app] in Hm, Hl. rewrite app_nil_r in Hm, Hl.
  unfold _makeRS, L.wms. cbn [fst snd].
  set (l := L.mkLayer (L.nextStamp pg) RS_WMS_URL (WMS_OPTS RS_LAYER)).
  assert (Hfresh : (L.nextStamp pg0 <= L.stamp l)%nat) by exact Hn.
  destruct (others_keep l Hfresh) as [_ He].
  unfold L.addTo, L.hasLayer. cbn [L.onMap]. rewrite Hm, He.
  unfold showing, madeSince.
  cbn [L.legendRender L.onMap L.legend L.nextStamp _rsLayer _swLayer
       layerList app].
  split; [reflexivity |].
  split.
  { rewrite Hl. unfold Legend.render.
    rewrite <- (app_nil_r (L.legend pg0)) at 1.
    rewrite legend_removeFirst_own by auto. cbn. now rewrite app_nil_r. }
  split; [lia |].
  split.
  { intros x E; injection E as <-. cbn. repeat split; lia. }
  split.
  { intros x E. destruct (Hsw x E) as (H1 & H2 & H3). repeat split; auto; lia. }
  split.
  { intros x y E E'; injection E as <-.
    destruct (Hsw y E') as (_ & _ & H3). cbn. lia. }
  split; [intros _; discriminate | intros E; discriminate E].
Qed.

(** A fresh surface-water overlay with its panel, after what there is of
    rivers and sea. *)
Lemma sw_added (mr lr : bool) (st : state) (pg : L.page) :
  showing pg0 mr false lr false st pg ->
  showing pg0 mr true lr true
    (mkState (_map st) (_rsLayer st) (Some (fst (_makeSW pg)))
             (_visible st) (_mode st))
    (L.legendRender "flood-sw" LEGEND_SW
       (L.addTo (fst (_makeSW pg)) (snd (_makeSW pg)))).
Proof.
  intros (Hm & Hl & Hn & Hrs & Hsw & Hd & Ha & _).
  rewrite app_nil_r in Hm, Hl.
  unfold _makeSW, L.wms. cbn [fst snd].
  set (l := L.mkLayer (L.nextStamp pg) SW_WMS_URL (WMS_OPTS SW_LAYER)).
  assert (Hfresh : (L.nextStamp pg0 <= L.stamp l)%nat) by exact Hn.
  destruct (others_keep l Hfresh) as [_ He].
  assert (Hown : existsb (fun y => Nat.eqb (L.stamp y) (L.stamp l))
                   (if mr then layerList (_rsLayer st) else []) = false).
  { destruct mr; [| reflexivity].
    destruct (_rsLayer st) as [x |] eqn:Ex; [| reflexivity].
    destruct (Hrs x eq_refl) as (_ & _ & H3).
    cbn [layerList existsb]. rewrite orb_false_r.
    apply Nat.eqb_neq. cbn. lia. }
  unfold L.addTo, L.hasLayer. cbn [L.onMap].
  rewrite Hm, existsb_app, He, Hown. cbn [orb].
  unfold showing, madeSince.
  cbn [L.legendRender L.onMap L.legend L.nextStamp _rsLayer _swLayer
       layerList].
  split; [now rewrite <- app_assoc |].
  split.
  { rewrite Hl. unfold Legend.render.
    rewrite legend_removeFirst_own by auto.
    rewrite <- app_assoc. f_equal. destruct lr; reflexivity. }
  split; [lia |].
  split.
  { intros x E. destruct (Hrs x E) as (H1 & H2 & H3). repeat split; auto; lia. }
  split.
  { intros x E; injection E as <-. cbn. repeat split; lia. }
  split.
  { intros x y E E'; injection E' as <-.
    destruct (Hrs x E) as (_ & _ & H3). cbn. lia. }
  split; [exact Ha | intros _; discriminate].
Qed.

(** [showing] reads only the two layer variables of the state. *)
Lemma showing_layers (mr ms lr ls : bool) (st st' : state) (pg : L.page) :
  _rsLayer st' = _rsLayer st -> _swLayer st' = _swLayer st ->
  showing pg0 mr ms lr ls st pg -> showing pg0 mr ms lr ls st' pg.
Proof. unfold showing. intros -> ->. auto. Qed.

(** [_applyMode] by its two branches. *)
Lemma applyMode_branches (st : state) (pg : L.page) :
  let pgc := L.legendRemove "flood-sw" (L.legendRemove "flood-rs"
               (removeIfOn (_swLayer st) (removeIfOn (_rsLayer st) pg))) in
  let sp1 :=
    if isMode "rs" st || isMode "both" st
    then (mkState (_map st) (Some (fst (_makeRS pgc))) (_swLayer st)
                  (_visible st) (_mode st),
          L.legendRender "flood-rs" LEGEND_RS
            (L.addTo (fst (_makeRS pgc)) (snd (_makeRS pgc))))
    else (st, pgc) in
  _applyMode st pg =
  if isMode "sw" st || isMode "both" st
  then (mkState (_map (fst sp1)) (_rsLayer (fst sp1))
                (Some (fst (_makeSW (snd sp1))))
                (_visible (fst sp1)) (_mode (fst sp1)),
        L.legendRender "flood-sw" LEGEND_SW
          (L.addTo (fst (_makeSW (snd sp1))) (snd (_makeSW (snd sp1)))))
  else sp1.
Proof.
  unfold _applyMode, isMode. cbv zeta.
  destruct (String.eqb (_mode st) "rs" || String.eqb (_mode st) "both");
    cbn [_makeRS L.wms fst snd _mode];
    destruct (String.eqb (_mode st) "sw" || String.eqb (_mode st) "both");
    reflexivity.
Qed.

(** After [_applyMode] the page shows what the mode asks for, whatever it
    showed before. *)
Lemma applyMode_showing (mr ms lr ls : bool) (st : state) (pg : L.page) :
  showing pg0 mr ms lr ls st pg ->
  let rsOn := isMode "rs" st || isMode "both" st in
  let swOn := isMode "sw" st || isMode "both" st in
  showing pg0 rsOn swOn rsOn swOn
          (fst (_applyMode st pg)) (snd (_applyMode st pg)) /\
  _map (fst (_applyMode st pg)) = _map st /\
  _visible (fst (_applyMode st pg)) = _visible st /\
  _mode (fst (_applyMode st pg)) = _mode st.
Proof.
  intros H. cbv zeta.
  apply overlays_cleared in H. apply panels_cleared in H.
  rewrite applyMode_branches. cbv zeta.
  destruct (isMode "rs" st || isMode "both" st);
    destruct (isMode "sw" st || isMode "both" st).
  - pose proof (sw_added true true _ _ (rs_added st _ H)) as H2.
    cbn [fst snd _map _visible _mode _rsLayer] in *. auto.
  - pose proof (rs_added st _ H) as H1.
    cbn [fst snd _map _visible _mode] in *. auto.
  - pose proof (sw_added false false _ _ H) as H2.
    cbn [fst snd _map _visible _mode _rsLayer] in *. auto.
  - cbn [fst snd]. auto.
Qed.

Lemma showing_start : showing pg0 false false false false start pg0.
Proof.
  unfold showing, madeSince. cbn. rewrite !app_nil_r.
  repeat split; auto; try discriminate; intros; discriminate.
Qed.

Lemma init_inSync : inSync pg0 (init start pg0).
Proof.
  pose proof (rs_added start pg0 showing_start) as H.
  unfold inSync, init, _makeRS, L.wms in *. cbn [fst snd] in *.
  split; [reflexivity |]. split; [reflexivity |].
  eapply showing_layers; [| | exact H]; reflexivity.
Qed.

Lemma wants_hidden (st : state) :
  _visible st = false -> wantsRS st = false /\ wantsSW st = false.
Proof. unfold wantsRS, wantsSW. intros ->. auto. Qed.

Lemma wants_visible (st : state) :
  _visible st = true ->
  wantsRS st = (isMode "rs" st || isMode "both" st) /\
  wantsSW st = (isMode "sw" st || isMode "both" st).
Proof. unfold wantsRS, wantsSW. intros ->. auto. Qed.

Lemma inSync_pair (st : state) (pg : L.page) :
  inSync pg0 (st, pg) <->
  _map st = true /\ knownMode (_mode st) = true /\
  showing pg0 (wantsRS st) (wantsSW st) (wantsRS st) (wantsSW st) st pg.
Proof. reflexivity. Qed.

(** From [_applyMode] on a visible state to the invariant. *)
Lemma applyMode_inSync (mr ms lr ls : bool) (st : state) (pg : L.page) :
  _map st = true -> knownMode (_mode st) = true -> _visible st = true ->
  showing pg0 mr ms lr ls st pg ->
  inSync pg0 (_applyMode st pg).
Proof.
  intros Hmap Hmode Hv Hs.
  destruct (applyMode_showing _ _ _ _ st pg Hs) as (Ha & Hm' & Hv' & Hmo').
  destruct (_applyMode st pg) as [st' pg']. cbn [fst snd] in *.
  apply inSync_pair.
  rewrite Hv in Hv'. destruct (wants_visible st' Hv') as [Er Es].
  rewrite Er, Es. unfold isMode in *. rewrite Hmo', Hm'. auto.
Qed.

Lemma show_inSync (sp : state * L.page) :
  inSync pg0 sp -> inSync pg0 (show (fst sp) (snd sp)).
Proof.
  destruct sp as [st pg]. cbn [fst snd]. intros H.
  pose proof (proj1 (inSync_pair st pg) H) as (Hmap & Hmode & Hs).
  unfold show.
  destruct (negb (_map st) || _visible st) eqn:Eg; [exact H |].
  apply orb_false_iff in Eg as [_ Ev].
  destruct (wants_hidden st Ev) as [Er Es]. rewrite Er, Es in Hs.
  apply (applyMode_inSync false false false false); auto.
Qed.

Lemma hide_inSync (sp : state * L.page) :
  inSync pg0 sp -> inSync pg0 (hide (fst sp) (snd sp)).
Proof.
  destruct sp as [st pg]. cbn [fst snd]. intros H.
  pose proof (proj1 (inSync_pair st pg) H) as (Hmap & Hmode & Hs).
  unfold hide.
  destruct (negb (_map st) || negb (_visible st)) eqn:Eg; [exact H |].
  apply overlays_cleared in Hs. apply panels_cleared in Hs.
  apply inSync_pair. cbn [_map _mode].
  set (st1 := mkState (_map st) (_rsLayer st) (_swLayer st) false (_mode st)).
  destruct (wants_hidden st1 eq_refl) as [Er Es]. rewrite Er, Es.
  split; [exact Hmap |]. split; [exact Hmode |].
  eapply showing_layers; [| | exact Hs]; reflexivity.
Qed.

Lemma setMode_inSync (mode : string) (sp : state * L.page) :
  inSync pg0 sp -> inSync pg0 (setMode mode (fst sp) (snd sp)).
Proof.
  destruct sp as [st pg]. cbn [fst snd]. intros H.
  pose proof (proj1 (inSync_pair st pg) H) as (Hmap & Hmode & Hs).
  unfold setMode.
  destruct (knownMode mode) eqn:Ek; cbn [negb]; [| exact H].
  set (st1 := mkState (_map st) (_rsLayer st) (_swLayer st) (_visible st) mode).
  cbn [_visible].
  assert (Hs1 : showing pg0 (wantsRS st) (wantsSW st) (wantsRS st) (wantsSW st)
                        st1 pg)
    by (eapply showing_layers; [| | exact Hs]; reflexivity).
  destruct (_visible st) eqn:Ev.
  - apply (applyMode_inSync (wantsRS st) (wantsSW st) (wantsRS st) (wantsSW st)
             st1 pg); auto.
  - apply inSync_pair.
    destruct (wants_hidden st Ev) as [Er Es].
    destruct (wants_hidden st1 eq_refl) as [Er1 Es1].
    rewrite Er1, Es1. rewrite Er, Es in Hs1. auto.
Qed.

Lemma run_inSync (calls : list call) : inSync pg0 (run calls pg0).
Proof.
  unfold run.
  assert (G : forall sp, inSync pg0 sp ->
                inSync pg0 (fold_left (fun sp c => step c sp) calls sp)).
  { induction calls as [| c rest IH]; intros sp H; [exact H |].
    cbn [fold_left]. apply IH.
    destruct c; cbn [step];
      [apply show_inSync | apply hide_inSync | apply setMode_inSync]; exact H. }
  apply G, init_inSync.
Qed.

End Flood.

(** X17. After [init] and any calls of [show], [hide] and [setMode], the
    page has, after what it had before, exactly the overlays and the legend
    panels of the current mode while the layer is visible, and none of them
    while it is hidden; nothing else on the page is touched. *)
Theorem flood_page_follows_mode (pg0 : L.page)
        (calls : list FloodRiskLayer.call) :
  floodFree pg0 ->
  exists own,
    L.onMap (snd (FloodRiskLayer.run calls pg0)) = L.onMap pg0 ++ own /\
    map describe own = expectedOverlays (fst (FloodRiskLayer.run calls pg0)) /\
    L.legend (snd (FloodRiskLayer.run calls pg0))
    = L.legend pg0 ++ expectedPanels (fst (FloodRiskLayer.run calls pg0)).
Proof.
  intros Hfree.
  pose proof (run_inSync pg0 Hfree calls) as H.
  destruct (FloodRiskLayer.run calls pg0) as [st pg].
  pose proof (proj1 (inSync_pair pg0 st pg) H)
    as (_ & _ & Hm & Hl & _ & Hrs & Hsw & _ & Ha & Hb).
  cbn [fst snd].
  exists ((if wantsRS st then layerList (FloodRiskLayer._rsLayer st) else [])
          ++ (if wantsSW st then layerList (FloodRiskLayer._swLayer st) else [])).
  split; [exact Hm |]. split; [| exact Hl].
  unfold expectedOverlays. rewrite map_app. f_equal.
  - destruct (wantsRS st); [| reflexivity].
    destruct (FloodRiskLayer._rsLayer st) as [x |];
      [| exfalso; apply Ha; reflexivity].
    destruct (Hrs x eq_refl) as (Hu & Ho & _).
    cbn. unfold describe. now rewrite Hu, Ho.
  - destruct (wantsSW st); [| reflexivity].
    destruct (FloodRiskLayer._swLayer st) as [x |];
      [| exfalso; apply Hb; reflexivity].
    destruct (Hsw x eq_refl) as (Hu & Ho & _).
    cbn. unfold describe. now rewrite Hu, Ho.
Qed.

Lemma flood_page_follows_mode_witness :
  exists own,
    L.onMap (snd (FloodRiskLayer.run
                    [FloodRiskLayer.SetMode "both"; FloodRiskLayer.Hide;
                     FloodRiskLayer.Show] emptyPage))
    = L.onMap emptyPage ++ own /\
    map describe own
    = expectedOverlays
        (fst (FloodRiskLayer.run
                [FloodRiskLayer.SetMode "both"; FloodRiskLayer.Hide;
                 FloodRiskLayer.Show] emptyPage)) /\
    L.legend (snd (FloodRiskLayer.run
                     [FloodRiskLayer.SetMode "both"; FloodRiskLayer.Hide;
                      FloodRiskLayer.Show] emptyPage))
    = L.legend emptyPage
      ++ expectedPanels
           (fst (FloodRiskLayer.run
                   [FloodRiskLayer.SetMode "both"; FloodRiskLayer.Hide;
                    FloodRiskLayer.Show] emptyPage)).
Proof.
  apply (flood_page_follows_mode emptyPage).
  unfold floodFree, emptyPage. cbn. repeat split; auto.
Defined.

Section FloodState.

Import FloodRiskLayer.

Lemma applyMode_state (st : state) (pg : L.page) :
  _map (fst (_applyMode st pg)) = _map st /\
  _visible (fst (_applyMode st pg)) = _visible st /\
  _mode (fst (_applyMode st pg)) = _mode st.
Proof.
  rewrite applyMode_branches. cbv zeta.
  destruct (isMode "rs" st || isMode "both" st);
    destruct (isMode "sw" st || isMode "both" st); cbn; auto.
Qed.

Lemma step_state (c : call) (st : state) (pg : L.page) :
  _map st = true ->
  _map (fst (step c (st, pg))) = true /\
  _mode (fst (step c (st, pg))) = lastMode [c] (_mode st) /\
  _visible (fst (step c (st, pg))) = lastVisible [c] (_visible st).
Proof.
  intros Hmap.
  destruct c as [| | m]; cbn [step fst snd lastMode lastVisible fold_left].
  - unfold show. destruct (negb (_map st) || _visible st) eqn:Eg.
    + rewrite Hmap in Eg. cbn [negb orb] in Eg. cbn [fst]. auto.
    + destruct (applyMode_state
                  (mkState (_map st) (_rsLayer st) (_swLayer st) true (_mode st))
                  pg) as (E1 & E2 & E3).
      cbn [_map _visible _mode] in *. rewrite E1, E2, E3. auto.
  - unfold hide. destruct (negb (_map st) || negb (_visible st)) eqn:Eg.
    + rewrite Hmap in Eg. cbn [negb orb] in Eg.
      apply negb_true_iff in Eg. cbn [fst]. auto.
    + cbn. auto.
  - unfold setMode. destruct (knownMode m); cbn [negb]; [| auto].
    cbn [_visible].
    destruct (_visible st) eqn:Ev; [| cbn; auto].
    destruct (applyMode_state
                (mkState (_map st) (_rsLayer st) (_swLayer st) true m) pg)
      as (E1 & E2 & E3).
    cbn [_map _visible _mode] in *. rewrite E1, E2, E3. auto.
Qed.

End FloodState.

(** X18. After [init] and any calls, the mode is the last known mode asked
    for, an unknown one being ignored, or rivers and sea when none was; and
    the layer is visible exactly when the last of [show] and [hide] was
    [show], or there was neither. *)
Theorem flood_state_follows_calls (pg0 : L.page)
        (calls : list FloodRiskLayer.call) :
  FloodRiskLayer._mode (fst (FloodRiskLayer.run calls pg0))
  = lastMode calls "rs" /\
  FloodRiskLayer._visible (fst (FloodRiskLayer.run calls pg0))
  = lastVisible calls true.
Proof.
  unfold FloodRiskLayer.run, lastMode, lastVisible.
  assert (G : forall sp m v,
             FloodRiskLayer._map (fst sp) = true ->
             FloodRiskLayer._mode (fst sp) = m ->
             FloodRiskLayer._visible (fst sp) = v ->
             FloodRiskLayer._mode
               (fst (fold_left (fun sp c => FloodRiskLayer.step c sp) calls sp))
             = lastMode calls m /\
             FloodRiskLayer._visible
               (fst (fold_left (fun sp c => FloodRiskLayer.step c sp) calls sp))
             = lastVisible calls v).
  { induction calls as [| c rest IH]; intros [st pg] m v Hmap Hm Hv.
    - cbn. auto.
    - cbn [fold_left]. cbn [fst] in Hmap, Hm, Hv.
      destruct (step_state c st pg Hmap) as (E1 & E2 & E3).
      unfold lastMode, lastVisible. cbn [fold_left].
      apply IH; [exact E1 | rewrite E2, Hm | rewrite E3, Hv]; reflexivity. }
  apply G; reflexivity.
Qed.

(** X19. Until [init] has run, no sequence of [show], [hide] and [setMode]
    changes the page, and the layer stays hidden. *)
Theorem flood_idle_before_init (calls : list FloodRiskLayer.call)
        (pg : L.page) :
  snd (fold_left (fun sp c => FloodRiskLayer.step c sp) calls
                 (FloodRiskLayer.start, pg)) = pg /\
  FloodRiskLayer._visible
    (fst (fold_left (fun sp c => FloodRiskLayer.step c sp) calls
                    (FloodRiskLayer.start, pg))) = false.
Proof.
  assert (G : forall st,
             FloodRiskLayer._map st = false ->
             FloodRiskLayer._visible st = false ->
             snd (fold_left (fun sp c => FloodRiskLayer.step c sp) calls
                            (st, pg)) = pg /\
             FloodRiskLayer._visible
               (fst (fold_left (fun sp c => FloodRiskLayer.step c sp) calls
                               (st, pg))) = false).
  { induction calls as [| c rest IH]; intros st Hmap Hv; [cbn; auto |].
    cbn [fold_left].
    assert (E : exists st', FloodRiskLayer.step c (st, pg) = (st', pg) /\
                            FloodRiskLayer._map st' = false /\
                            FloodRiskLayer._visible st' = false).
    { destruct c as [| | m]; cbn [FloodRiskLayer.step fst snd].
      - unfold FloodRiskLayer.show. rewrite Hmap. cbn [negb orb]. eauto.
      - unfold FloodRiskLayer.hide. rewrite Hmap. cbn [negb orb]. eauto.
      - unfold FloodRiskLayer.setMode.
        destruct (FloodRiskLayer.knownMode m); cbn [negb]; [| eauto].
        cbn [FloodRiskLayer._visible]. rewrite Hv. eauto. }
    destruct E as (st' & -> & Hmap' & Hv'). now apply IH. }
  apply G; reflexivity.
Qed.

(** ** From the readings of a site to the air-quality component *)



(** ** The toggles of the page *)

Lemma handle_while_combined (e : App.event) (st : App.state) :
  otherThanCombined e ->
  App.toggleCombined st = true ->
  App.toggleCombined (fst (App.handle e st)) = true
  /\ App._stateBeforeCombined (fst (App.handle e st))
     = App._stateBeforeCombined st
  /\ forall q, In q (snd (App.handle e st)) -> isShowOrHide q = false.
Proof.
  intros He Hc. destruct st as [a n r f d c rh fh sv]. simpl in Hc. subst c.
  destruct e; try (exfalso; apply He; reflexivity); simpl;
    (split; [reflexivity | split; [reflexivity |]]);
    intros q Hq; simpl in Hq;
    try contradiction;
    destruct Hq as [Hq | []]; subst q; reflexivity.
Qed.

Lemma play_while_combined (events : list App.event) :
  forall st : App.state,
    Forall otherThanCombined events ->
    App.toggleCombined st = true ->
    App.toggleCombined (fst (App.play events st)) = true
    /\ App._stateBeforeCombined (fst (App.play events st))
       = App._stateBeforeCombined st
    /\ forall q, In q (snd (App.play events st)) -> isShowOrHide q = false.
Proof.
  induction events as [| e rest IH]; intros st Hall Hc.
  - simpl. repeat split; auto. intros q [].
  - inversion Hall as [| ? ? He Hrest]; subst.
    destruct (handle_while_combined e st He Hc) as [H1 [H2 H3]].
    simpl. destruct (App.handle e st) as [st1 asked] eqn:Eh.
    simpl in H1, H2, H3.
    destruct (IH st1 Hrest H1) as [K1 [K2 K3]].
    destruct (App.play rest st1) as [st2 more] eqn:Ep.
    simpl in *. split; [exact K1 | split; [congruence |]].
    intros q Hq. apply in_app_or in Hq. destruct Hq; auto.
Qed.

(** X21.  Switching the combined score on and off again gives the five
    checkboxes back as they were, whatever the visitor clicks on them (or on
    the radio buttons) in between: while the combined box is checked those
    clicks ask no layer to show or hide, and unchecking it hides the
    combined layer and then asks each single layer to show or hide as its
    checkbox said before. *)
Theorem combined_round_trip (st : App.state) (events : list App.event) :
  App.toggleCombined st = false ->
  Forall otherThanCombined events ->
  let on := App.handle App.ClickCombined st in
  let between := App.play events (fst on) in
  let off := App.handle App.ClickCombined (fst between) in
  boxes (fst off) = boxes st
  /\ App.toggleCombined (fst off) = false
  /\ App._stateBeforeCombined (fst off) = None
  /\ (forall q, In q (snd between) -> isShowOrHide q = false)
  /\ snd off
     = App.hide App.CombinedScore
       :: App._setIndividualLayersVisible
            (App.toggleAir st) (App.toggleNoise st) (App.toggleRoadNoise st)
            (App.toggleFlood st) (App.toggleDeprivation st).
Proof.
  intros Hc Hall on between off.
  assert (Hon : App.toggleCombined (fst on) = true
                /\ App._stateBeforeCombined (fst on) = Some (boxes st)).
  { subst on. destruct st as [a n r f d c rh fh sv]. simpl in Hc. subst c.
    split; reflexivity. }
  destruct Hon as [Hon1 Hon2].
  destruct (play_while_combined events (fst on) Hall Hon1) as [K1 [K2 K3]].
  fold between in K1, K2, K3. rewrite Hon2 in K2.
  subst off. destruct (fst between) as [a n r f d c rh fh sv] eqn:Eb.
  simpl in K1, K2. subst c sv.
  destruct st as [a0 n0 r0 f0 d0 c0 rh0 fh0 sv0]. simpl.
  repeat split; try reflexivity. exact K3.
Qed.

Lemma combined_round_trip_witness :
  App.toggleCombined samplePage = false
  /\ Forall otherThanCombined
       [App.ClickAir; App.ClickFlood; App.PickMode "sw"%string]
  /\ boxes (fst (App.handle App.ClickCombined
              (fst (App.play
                      [App.ClickAir; App.ClickFlood; App.PickMode "sw"%string]
                      (fst (App.handle App.ClickCombined samplePage))))))
     = boxes samplePage.
Proof.
  assert (H : Forall otherThanCombined
                [App.ClickAir; App.ClickFlood; App.PickMode "sw"%string]).
  { repeat constructor; discriminate. }
  split; [reflexivity | split; [exact H |]].
  exact (proj1 (combined_round_trip samplePage _ eq_refl H)).
Defined.

Lemma handle_saved (e : App.event) (st : App.state) :
  (App.toggleCombined st = true <-> App._stateBeforeCombined st <> None) ->
  App.toggleCombined (fst (App.handle e st)) = true
  <-> App._stateBeforeCombined (fst (App.handle e st)) <> None.
Proof.
  intros H. destruct st as [a n r f d c rh fh sv]. simpl in H.
  destruct e; simpl;
    try (destruct c; simpl; exact H).
  destruct c; simpl.
  - destruct sv as [b |]; simpl.
    + split; [discriminate | intros K; now contradiction K].
    + exfalso. now apply (proj1 H).
  - split; [discriminate | reflexivity].
Qed.

(** X22.  When the page starts with the combined box unchecked and nothing
    saved, then after any clicks the saved state is there exactly while the
    combined box is checked; so unchecking the box always finds the state
    to restore, and the branch that shows all five layers is not taken. *)
Theorem saved_state_tracks_combined (st : App.state)
        (events : list App.event) :
  App.toggleCombined st = false ->
  App._stateBeforeCombined st = None ->
  let st' := fst (App.play events st) in
  (App.toggleCombined st' = true <-> App._stateBeforeCombined st' <> None)
  /\ (App.toggleCombined st' = true ->
      exists b,
        App._stateBeforeCombined st' = Some b
        /\ snd (App.handle App.ClickCombined st')
           = App.hide App.CombinedScore
             :: App._setIndividualLayersVisible
                  (App.air b) (App.noise b) (App.roadNoise b) (App.flood b)
                  (App.dep b)).
Proof.
  intros Hc Hs st'.
  assert (Hinv : App.toggleCombined st' = true
                 <-> App._stateBeforeCombined st' <> None).
  { subst st'.
    assert (H0 : App.toggleCombined st = true
                 <-> App._stateBeforeCombined st <> None).
    { rewrite Hc, Hs. split; [discriminate | intros K; now contradiction K]. }
    clear Hc Hs. revert st H0.
    induction events as [| e rest IH]; intros st H0; [exact H0 |].
    simpl. pose proof (handle_saved e st H0) as H1.
    destruct (App.handle e st) as [st1 asked]. simpl in H1.
    specialize (IH st1 H1).
    destruct (App.play rest st1) as [st2 more]. exact IH. }
  split; [exact Hinv |].
  intros Ht. pose proof (proj1 Hinv Ht) as Hn.
  destruct st' as [a n r f d c rh fh sv]. simpl in *. subst c.
  destruct sv as [b |]; [| now contradiction Hn].
  exists b. split; reflexivity.
Qed.

Lemma saved_state_tracks_combined_witness :
  App.toggleCombined samplePage = false
  /\ App._stateBeforeCombined samplePage = None
  /\ (App.toggleCombined
        (fst (App.play [App.ClickNoise; App.ClickCombined; App.ClickAir]
                       samplePage)) = true
      <-> App._stateBeforeCombined
            (fst (App.play [App.ClickNoise; App.ClickCombined; App.ClickAir]
                           samplePage)) <> None).
Proof.
  split; [reflexivity | split; [reflexivity |]].
  exact (proj1 (saved_state_tracks_combined samplePage
                  [App.ClickNoise; App.ClickCombined; App.ClickAir]
                  eq_refl eq_refl)).
Defined.
